(** * Intel HEX records, containers and streaming writer (package [ihex])

    A shallow embedding of the Go package: the record codec of [record.go],
    the three typed containers ([I8HEXFile], [I16HEXFile], [I32HEXFile]),
    the streaming [FileWriter] of [fileWriter.go], and the two earlier
    drafts kept in the repository (the [readRecord] decoder and the
    [HexFile] container with its [ReadFrom]).

    Conventions.  A Go [byte] is a [Byte.byte]; a [[]byte] and a Go string
    are [list byte]; [int], [int64], [uint16] and [uint32] are [Z] with the
    wrap-around written where the source computes.  A function that can
    panic at run time returns in a type with an explicit [Panic] outcome. *)

From Stdlib Require Import ZArith List Lia Bool Strings.Byte Strings.String.
Import ListNotations.
Local Open Scope Z_scope.

(** ** Go values and run-time checks *)

Definition Z_of_byte (b : byte) : Z := Z.of_N (Byte.to_N b).

(** Conversion [byte(x)]: truncation to the low eight bits. *)
Definition byte_of_Z (z : Z) : byte :=
  match Byte.of_N (Z.to_N (z mod 256)) with
  | Some b => b
  | None => x00
  end.

Definition uint16 (z : Z) : Z := z mod 2 ^ 16.
Definition uint32 (z : Z) : Z := z mod 2 ^ 32.
Definition int64 (z : Z) : Z := (z + 2 ^ 63) mod 2 ^ 64 - 2 ^ 63.

Definition len {A : Type} (s : list A) : Z := Z.of_nat (List.length s).

(** [s[i]]; [None] is the run-time panic for an index out of range. *)
Definition index {A : Type} (s : list A) (i : Z) : option A :=
  if (0 <=? i) && (i <? len s) then nth_error s (Z.to_nat i) else None.

(** [s[lo:hi]]; [None] when the bounds are not [0 <= lo <= hi <= len(s)].
    (Go bounds [hi] by the capacity; the model takes the length, so a slice
    that would read spare capacity past the length is a fault here.) *)
Definition slice {A : Type} (s : list A) (lo hi : Z) : option (list A) :=
  if (0 <=? lo) && (lo <=? hi) && (hi <=? len s)
  then Some (firstn (Z.to_nat (hi - lo)) (skipn (Z.to_nat lo) s))
  else None.

(** [s[i] = v]; [None] is the panic for an index out of range. *)
Definition store {A : Type} (s : list A) (i : Z) (v : A) : option (list A) :=
  if (0 <=? i) && (i <? len s)
  then Some (firstn (Z.to_nat i) s ++ v :: skipn (S (Z.to_nat i)) s)
  else None.

(** [make([]byte, n)]; [None] is the panic for a negative length. *)
Definition make (n : Z) : option (list byte) :=
  if n <? 0 then None else Some (repeat x00 (Z.to_nat n)).

(** Outcome of a fallible call: a value, a returned [error], or a panic. *)
Inductive result (E A : Type) : Type :=
| Ok (a : A)
| Err (e : E)
| Panic.
Arguments Ok {E A} a.
Arguments Err {E A} e.
Arguments Panic {E A}.

Definition bind {E A B : Type} (r : result E A) (k : A -> result E B) : result E B :=
  match r with
  | Ok a => k a
  | Err e => Err e
  | Panic => Panic
  end.

(** A panicking run-time operation lifted into [result]. *)
Definition checked {E A : Type} (o : option A) : result E A :=
  match o with
  | Some a => Ok a
  | None => Panic
  end.

Notation "x <- r ;; k" := (bind r (fun x => k))
  (at level 61, r at next level, right associativity).

(** ** Library functions the package calls *)

(** Value of a hexadecimal digit, either case, as [strconv] and
    [encoding/hex] read it: ['0'..'9'], ['a'..'f'], ['A'..'F']. *)
Definition fromHexChar (c : byte) : option Z :=
  let n := Z_of_byte c in
  if (48 <=? n) && (n <=? 57) then Some (n - 48)
  else if (97 <=? n) && (n <=? 102) then Some (n - 97 + 10)
  else if (65 <=? n) && (n <=? 70) then Some (n - 65 + 10)
  else None.

(** Digit tables: [fmt]'s ["%X"] and [encoding/hex]'s ["0123456789abcdef"]. *)
Definition upperDigit (d : Z) : byte :=
  nth (Z.to_nat d) (list_byte_of_string "0123456789ABCDEF") "0"%byte.

Definition hextable (d : Z) : byte :=
  nth (Z.to_nat d) (list_byte_of_string "0123456789abcdef") "0"%byte.

(** [strings.ToUpper] on one ASCII byte. *)
Definition toUpperByte (c : byte) : byte :=
  let n := Z_of_byte c in
  if (97 <=? n) && (n <=? 122) then byte_of_Z (n - 32) else c.

Definition strings_ToUpper (s : list byte) : list byte := map toUpperByte s.

(** Digits of [n] in base 16, most significant first, upper case. *)
Fixpoint hexDigits (fuel : nat) (n : Z) (acc : list byte) : list byte :=
  match fuel with
  | O => acc
  | S fuel' =>
      let acc' := upperDigit (n mod 16) :: acc in
      if n / 16 =? 0 then acc' else hexDigits fuel' (n / 16) acc'
  end.

(** [fmt.Sprintf("%0wX", n)] for [0 <= n]: at least [w] digits, zero padded. *)
Definition fmt_X (w : nat) (n : Z) : list byte :=
  let ds := hexDigits (S (Z.to_nat (Z.log2 n))) n [] in
  repeat "0"%byte (w - List.length ds) ++ ds.

(** [hex.Encode]: two lower-case digits per byte. *)
Definition hex_Encode (src : list byte) : list byte :=
  flat_map (fun v => [hextable (Z.shiftr (Z_of_byte v) 4);
                      hextable (Z.land (Z_of_byte v) 15)]) src.

Inductive HexError : Type :=
| InvalidByteError (c : byte)
| ErrLength.

(** The loop of [hex.Decode]: the bytes decoded before the first problem,
    and that problem if any. *)
Fixpoint hexDecodeLoop (src : list byte) : list byte * option HexError :=
  match src with
  | [] => ([], None)
  | [p] =>
      match fromHexChar p with
      | None => ([], Some (InvalidByteError p))
      | Some _ => ([], Some ErrLength)
      end
  | p :: q :: rest =>
      match fromHexChar p, fromHexChar q with
      | None, _ => ([], Some (InvalidByteError p))
      | Some _, None => ([], Some (InvalidByteError q))
      | Some a, Some b =>
          let '(out, e) := hexDecodeLoop rest in
          (byte_of_Z (Z.lor (Z.shiftl a 4) b) :: out, e)
      end
  end.

(** [hex.Decode(dst, src)]: [dst] after the call, the count and the error;
    [None] is the panic of writing past the end of [dst]. *)
Definition hex_Decode (dst src : list byte)
  : option (list byte * Z * option HexError) :=
  let '(out, e) := hexDecodeLoop src in
  if len dst <? len out then None
  else Some (out ++ skipn (List.length out) dst, len out, e).

Inductive NumError : Type :=
| ErrSyntax
| ErrRange.

(** The digit loop of [strconv.ParseUint] in base 16 with [maxVal = 2^bitSize - 1]. *)
Fixpoint parseUintLoop (s : list byte) (maxVal n : Z) : Z * option NumError :=
  match s with
  | [] => (n, None)
  | c :: s' =>
      match fromHexChar c with
      | None => (0, Some ErrSyntax)
      | Some d =>
          if n >=? 2 ^ 60 then (maxVal, Some ErrRange)
          else
            let n1 := n * 16 + d in
            if n1 >? maxVal then (maxVal, Some ErrRange)
            else parseUintLoop s' maxVal n1
      end
  end.

(** [strconv.ParseUint(s, 16, bitSize)]. *)
Definition strconv_ParseUint (s : list byte) (bitSize : Z) : Z * option NumError :=
  match s with
  | [] => (0, Some ErrSyntax)
  | _ => parseUintLoop s (2 ^ bitSize - 1) 0
  end.

(** [strconv.ParseInt(s, 16, bitSize)]: an optional sign, then the unsigned
    digits, then the signed range check against [2^(bitSize-1)]. *)
Definition strconv_ParseInt (s : list byte) (bitSize : Z) : Z * option NumError :=
  match s with
  | [] => (0, Some ErrSyntax)
  | c :: s' =>
      let neg := Byte.eqb c "-"%byte in
      let digits := if Byte.eqb c "+"%byte || neg then s' else s in
      let '(un, err) := strconv_ParseUint digits bitSize in
      match err with
      | Some ErrSyntax => (0, Some ErrSyntax)
      | _ =>
          let cutoff := 2 ^ (bitSize - 1) in
          if negb neg && (un >=? cutoff) then (cutoff - 1, Some ErrRange)
          else if neg && (un >? cutoff) then (- cutoff, Some ErrRange)
          else ((if neg then - un else un), None)
      end
  end.

(** [binary.BigEndian.PutUint16(b, v)]; [None] is the panic of its bounds
    check [_ = b[1]]. *)
Definition binary_PutUint16 (b : list byte) (v : Z) : option (list byte) :=
  match index b 1 with
  | None => None
  | Some _ =>
      match store b 0 (byte_of_Z (Z.shiftr v 8)) with
      | None => None
      | Some b' => store b' 1 (byte_of_Z v)
      end
  end.

(** Dropping one trailing carriage return ([dropCR] of [bufio]). *)
Definition dropCR (line : list byte) : list byte :=
  match rev line with
  | c :: r => if Byte.eqb c "013"%byte then rev r else line
  | [] => line
  end.

(** Splitting at the first line feed: the bytes before it and, when there
    is one, the bytes after it. *)
Fixpoint splitLF (s : list byte) : list byte * option (list byte) :=
  match s with
  | [] => ([], None)
  | c :: s' =>
      if Byte.eqb c "010"%byte then ([], Some s')
      else let '(l, r) := splitLF s' in (c :: l, r)
  end.

(** [bufio.Reader.ReadLine] on the unread input, for lines that fit the
    reader's buffer: [None] is [io.EOF]; otherwise the line without its
    ["\n"] or ["\r\n"], and the input left. *)
Definition bufio_ReadLine (input : list byte) : option (list byte * list byte) :=
  match input with
  | [] => None
  | _ =>
      match splitLF input with
      | (l, Some rest) => Some (dropCR l, rest)
      | (l, None) => Some (l, [])
      end
  end.

(** The tokens of a [bufio.Scanner] with its default [ScanLines] split
    function, for lines below the scanner's token limit. *)
Fixpoint bufio_ScanLines (fuel : nat) (input : list byte) : list (list byte) :=
  match fuel, input with
  | O, _ => []
  | _, [] => []
  | S fuel', _ =>
      match splitLF input with
      | (l, Some rest) => dropCR l :: bufio_ScanLines fuel' rest
      | (l, None) => [dropCR l]
      end
  end.

(** The sink behind [io.Writer]: an in-memory writer that accepts every
    write, remembers each call, and may or may not be an [io.Closer]. *)
Record Writer : Type := mkWriter {
  written : list (list byte);
  isCloser : bool;
  sinkClosed : bool
}.

Definition Writer_Write (w : Writer) (p : list byte) : Writer * Z :=
  (mkWriter (written w ++ [p]) (isCloser w) (sinkClosed w), len p).

Definition Writer_Close (w : Writer) : Writer :=
  mkWriter (written w) (isCloser w) true.

(** ** recordType.go, fileType.go *)

Definition RecordType : Type := byte.
Definition RecordData : RecordType := x00.
Definition RecordEOF : RecordType := x01.
Definition RecordExtSegment : RecordType := x02.
Definition RecordStartSegment : RecordType := x03.
Definition RecordExtLinear : RecordType := x04.
Definition RecordStartLinear : RecordType := x05.

Definition FileType : Type := byte.
Definition I8HEX : FileType := x08.
Definition I16HEX : FileType := x10.
Definition I32HEX : FileType := x20.

(** ** record.go *)

Definition recordMaximumDataSize : Z := 255.
Definition recordMaximumSizeChars : Z := 521.
Definition recordEOFChecksum : byte := xff.
Definition recordStartChar : byte := ":"%byte.

(** The struct [Record] ([Type] is its kind, [AddressOffset] a [uint16]). *)
Record Record_ : Type := mkRecord {
  Type_ : RecordType;
  AddressOffset : Z;
  Data : list byte
}.

(** The zero value [Record{}]. *)
Definition emptyRecord : Record_ := mkRecord x00 0 [].

Definition validate (me : Record_) (fileType : FileType) : bool :=
  Byte.eqb (Type_ me) RecordData
  || Byte.eqb (Type_ me) RecordEOF
  || ((Byte.eqb (Type_ me) RecordExtSegment || Byte.eqb (Type_ me) RecordStartSegment)
      && Byte.eqb fileType I16HEX)
  || ((Byte.eqb (Type_ me) RecordExtLinear || Byte.eqb (Type_ me) RecordStartLinear)
      && Byte.eqb fileType I32HEX).

(** The [uint32] accumulation of [getChecksum]'s loop. *)
Definition sumBytes (data : list byte) : Z :=
  fold_left (fun sum d => uint32 (sum + uint32 (Z_of_byte d))) data 0.

Definition getChecksum (me : Record_) : byte :=
  if Byte.eqb (Type_ me) RecordEOF then recordEOFChecksum
  else
    let sum := sumBytes (Data me) in
    byte_of_Z (Z_of_byte (byte_of_Z (Z.land (uint32 (Z.lnot sum)) 255)) + 1).

(** The bytes [write] assembles in its buffer. *)
Definition recordLine (me : Record_) : list byte :=
  (recordStartChar :: fmt_X 2 (len (Data me)) ++ fmt_X 4 (AddressOffset me)
     ++ fmt_X 2 (Z_of_byte (Type_ me)))
  ++ strings_ToUpper (hex_Encode (Data me))
  ++ fmt_X 2 (Z_of_byte (getChecksum me))
  ++ ["010"%byte].

(** [Record.write]: one [Write] of the assembled line to the sink. *)
Definition write (me : Record_) (w : Writer) : Writer * Z :=
  Writer_Write w (recordLine me).

(** ** errors.go *)

Record InvalidRecordTypeError : Type := mkInvalidRecordTypeError {
  InvalidRecordType : RecordType;
  InvaildFileType : FileType
}.

(** ** i16hex.go, i32hex.go and the I8HEX container

    The three container types have the same two fields and the same
    methods; they differ in the constant [GetType] returns. *)

Module Files.

Record HEXFile : Type := mkHEXFile {
  recordIndex : Z;
  records : list Record_
}.

Section Container.

Variable GetType : FileType.

(** [ReadNext]: the record, the flag and the receiver after the call;
    [None] is the panic of [me.records[me.recordIndex]] out of range. *)
Definition ReadNext (me : HEXFile) : option (Record_ * bool * HEXFile) :=
  if recordIndex me + 1 >=? len (records me) then Some (emptyRecord, false, me)
  else
    let me' := mkHEXFile (recordIndex me + 1) (records me) in
    match index (records me') (recordIndex me') with
    | Some r => Some (r, true, me')
    | None => None
    end.

Definition Reset (me : HEXFile) : HEXFile := mkHEXFile (-1) (records me).

(** [Add]: the receiver after the call and the returned error ([None] is [nil]). *)
Definition Add (me : HEXFile) (r : Record_) : HEXFile * option InvalidRecordTypeError :=
  if negb (validate r GetType)
  then (me, Some (mkInvalidRecordTypeError (Type_ r) GetType))
  else (mkHEXFile (recordIndex me) (records me ++ [r]), None).

Fixpoint AddRecords (me : HEXFile) (r : list Record_)
  : HEXFile * option InvalidRecordTypeError :=
  match r with
  | [] => (me, None)
  | record :: r' =>
      match Add me record with
      | (me', Some err) => (me', Some err)
      | (me', None) => AddRecords me' r'
      end
  end.

End Container.

Definition NewHEXFile : HEXFile := mkHEXFile (-1) [].

End Files.

Module I8HEXFile.
Definition GetType : FileType := I8HEX.
Definition ReadNext := Files.ReadNext.
Definition Reset := Files.Reset.
Definition Add := Files.Add GetType.
Definition AddRecords := Files.AddRecords GetType.
Definition NewI8HEXFile := Files.NewHEXFile.
End I8HEXFile.

Module I16HEXFile.
Definition GetType : FileType := I16HEX.
Definition ReadNext := Files.ReadNext.
Definition Reset := Files.Reset.
Definition Add := Files.Add GetType.
Definition AddRecords := Files.AddRecords GetType.
Definition NewI16HEXFile := Files.NewHEXFile.
End I16HEXFile.

Module I32HEXFile.
Definition GetType : FileType := I32HEX.
Definition ReadNext := Files.ReadNext.
Definition Reset := Files.Reset.
Definition Add := Files.Add GetType.
Definition AddRecords := Files.AddRecords GetType.
Definition NewI32HEXFile := Files.NewHEXFile.
End I32HEXFile.

(** ** fileWriter.go *)

Definition writerMaximumI8HEXRecords : Z := 65536.
Definition writerMaximumI16HEXRecords : Z := 1048576.
Definition writerMaximumI32HEXRecords : Z := 4294967296.

Inductive WriterError : Type :=
| ErrClosed
| ErrRecordSize (recordSize : Z)
| ErrMaximumRecords (fileType : FileType).

Record FileWriter : Type := mkFileWriter {
  recordSize : Z;
  recordCount : Z;
  buffer : list byte;
  bufferIndex : Z;
  fileType : FileType;
  writer : Writer;
  closed : bool
}.

Definition set_recordCount (me : FileWriter) (v : Z) : FileWriter :=
  mkFileWriter (recordSize me) v (buffer me) (bufferIndex me) (fileType me)
    (writer me) (closed me).

Definition set_buffer (me : FileWriter) (v : list byte) : FileWriter :=
  mkFileWriter (recordSize me) (recordCount me) v (bufferIndex me) (fileType me)
    (writer me) (closed me).

Definition set_bufferIndex (me : FileWriter) (v : Z) : FileWriter :=
  mkFileWriter (recordSize me) (recordCount me) (buffer me) v (fileType me)
    (writer me) (closed me).

Definition set_writer (me : FileWriter) (v : Writer) : FileWriter :=
  mkFileWriter (recordSize me) (recordCount me) (buffer me) (bufferIndex me)
    (fileType me) v (closed me).

Definition set_closed (me : FileWriter) (v : bool) : FileWriter :=
  mkFileWriter (recordSize me) (recordCount me) (buffer me) (bufferIndex me)
    (fileType me) (writer me) v.

Definition NewFileWriterType (w : Writer) (recordSize : Z) (fileType : FileType)
  : result WriterError FileWriter :=
  if (recordSize >? recordMaximumDataSize) || (recordSize <=? 0)
  then Err (ErrRecordSize recordSize)
  else
    buffer <- checked (make recordSize) ;;
    Ok (mkFileWriter recordSize 0 buffer 0 fileType w false).

Definition NewFileWriter (w : Writer) (recordSize : Z) : result WriterError FileWriter :=
  NewFileWriterType w recordSize I32HEX.

(** The value [writeDataRecord] gives [addressExtension] for a record count
    and the [address] computed from it. *)
Definition addressExtensionOf (fileType : FileType) (recordCount address : Z) : Z :=
  if (address =? 0) && (recordCount >? 0) then
    if Byte.eqb fileType I32HEX
    then uint16 (Z.shiftr (Z.land recordCount 0xFF00) 16)
    else if Byte.eqb fileType I16HEX
    then uint16 (Z.quot recordCount 16)
    else uint16 0
  else uint16 0.

(** [writeDataRecord]: the receiver after the call, the byte count and the
    error returned; [None] is a run-time panic. *)
Definition writeDataRecord (me : FileWriter) (data : list byte)
  : option (FileWriter * Z * option WriterError) :=
  if (Byte.eqb (fileType me) I8HEX && (recordCount me >=? writerMaximumI8HEXRecords))
     || (Byte.eqb (fileType me) I16HEX && (recordCount me >=? writerMaximumI16HEXRecords))
     || (Byte.eqb (fileType me) I32HEX && (recordCount me >=? writerMaximumI32HEXRecords))
  then Some (me, 0, Some (ErrMaximumRecords (fileType me)))
  else
    let address := uint16 (Z.land (recordCount me) 0xFF) in
    let addressExtension := addressExtensionOf (fileType me) (recordCount me) address in
    let extended : option (FileWriter * Z) :=
      if addressExtension >? 0 then
        match make 0 with
        | None => None
        | Some b0 =>
            match binary_PutUint16 b0 addressExtension with
            | None => None
            | Some b =>
                let t := if Byte.eqb (fileType me) I16HEX
                         then RecordExtSegment else RecordExtLinear in
                let r := mkRecord t 0 b in
                let '(w, n) := write r (writer me) in
                Some (set_writer me w, n)
            end
        end
      else Some (me, 0) in
    match extended with
    | None => None
    | Some (me1, sum) =>
        let me2 := set_recordCount me1 (int64 (recordCount me1 + 1)) in
        let r := mkRecord RecordData address data in
        let '(w, n) := write r (writer me2) in
        Some (set_writer me2 w, n + sum, None)
    end.

(** The loop of [Write] over the bytes of [p] still to be taken. *)
Fixpoint writeLoop (me : FileWriter) (p : list byte) (sum : Z)
  : option (FileWriter * Z * option WriterError) :=
  match p with
  | [] => Some (me, sum, None)
  | b :: p' =>
      match store (buffer me) (bufferIndex me) b with
      | None => None
      | Some buf =>
          let me1 := set_bufferIndex (set_buffer me buf) (bufferIndex me + 1) in
          if bufferIndex me1 >=? recordSize me1 then
            let me2 := set_bufferIndex me1 0 in
            match writeDataRecord me2 (buffer me2) with
            | None => None
            | Some (me3, n, Some err) => Some (me3, sum + n, Some err)
            | Some (me3, n, None) => writeLoop me3 p' (sum + n)
            end
          else writeLoop me1 p' sum
      end
  end.

Definition Write (me : FileWriter) (p : list byte)
  : option (FileWriter * Z * option WriterError) :=
  if closed me then Some (me, 0, Some ErrClosed)
  else writeLoop me p 0.

(** The padding loop of [Close]: [for i := start; i < len(buffer); i++]. *)
Fixpoint zeroLoop (fuel : nat) (buffer : list byte) (i : Z) : option (list byte) :=
  match fuel with
  | O => Some buffer
  | S fuel' =>
      if i <? len buffer then
        match store buffer i x00 with
        | None => None
        | Some buffer' => zeroLoop fuel' buffer' (i + 1)
        end
      else Some buffer
  end.

(** The last step of [Close]: closing the sink when it is an [io.Closer]. *)
Definition closeSink (me : FileWriter) : FileWriter :=
  if isCloser (writer me) then set_writer me (Writer_Close (writer me)) else me.

Definition Close (me : FileWriter) : option (FileWriter * option WriterError) :=
  if closed me then Some (me, None)
  else
    let me1 := set_closed me true in
    if bufferIndex me1 >? 0 then
      match zeroLoop (List.length (buffer me1)) (buffer me1) (bufferIndex me1 + 1) with
      | None => None
      | Some buf =>
          let me2 := set_buffer me1 buf in
          match writeDataRecord me2 (buffer me2) with
          | None => None
          | Some (me3, _, Some err) => Some (me3, Some err)
          | Some (me3, _, None) => Some (closeSink me3, None)
          end
      end
    else Some (closeSink me1, None).

(** ** The decoder draft: [readRecord] and [NewI8HEX]

    This draft declares its own [Record] with the same three fields (the
    kind is the field [RecordType], a plain [byte]); the model uses
    [Record_] for it. *)

Module Decoder.

Definition maxRecordLen : Z := 521.
Definition recordStartCode : byte := byte_of_Z 58.

Definition RecordTypeData : Z := 0.
Definition RecordTypeEndOfFile : Z := 1.
Definition RecordTypeExtendedSegmentAddress : Z := 2.
Definition RecordTypeStartSegmentAddress : Z := 3.
Definition RecordTypeExtendedLinearAddress : Z := 4.
Definition RecordTypeStartLinearAddress : Z := 5.

(** The errors [readRecord] returns, one constructor per message. *)
Inductive ReadError : Type :=
| EOF
| MaximumRecordLength
| InvalidStartCode
| ParsingByteCount (e : NumError)
| InvalidByteCount
| ByteCountMismatch (byteCount actualByteCount : Z)
| ParsingAddress (e : NumError)
| ParsingRecordType (e : NumError)
| InvalidRecordTypeValue (recordType : Z)
| ParsingData (e : HexError)
| IncorrectNumberOfBytes
| ParsingChecksum (e : NumError)
| ChecksumMismatch.

Definition generateChecksum (data : list byte) (recordType : byte) : byte :=
  if Z_of_byte recordType =? RecordTypeEndOfFile then xff
  else
    let sum := sumBytes data in
    byte_of_Z (Z_of_byte (byte_of_Z (Z.land (uint32 (Z.lnot sum)) 255)) + 1).

(** A library call returning [(value, err)], with [err] wrapped by [wrap]. *)
Definition parsed {A E : Type} (wrap : E -> ReadError) (r : A * option E)
  : result ReadError A :=
  match r with
  | (_, Some e) => Err (wrap e)
  | (v, None) => Ok v
  end.

Definition knownRecordType (recordType : Z) : bool :=
  negb (negb (recordType =? RecordTypeData)
        && negb (recordType =? RecordTypeEndOfFile)
        && negb (recordType =? RecordTypeExtendedLinearAddress)
        && negb (recordType =? RecordTypeExtendedSegmentAddress)
        && negb (recordType =? RecordTypeStartLinearAddress)
        && negb (recordType =? RecordTypeStartSegmentAddress)).

(** [readRecord] on the unread input of the reader: the record and the
    input left.  A line is taken whole (one [ReadLine], or its pieces
    joined by the [isPrefix] loop). *)
Definition readRecord (reader : list byte) : result ReadError (Record_ * list byte) :=
  match bufio_ReadLine reader with
  | None => Err EOF
  | Some (bytes, rest) =>
      let bytesLen := len bytes in
      if bytesLen >? maxRecordLen then Err MaximumRecordLength
      else
        b0 <- checked (index bytes 0) ;;
        if negb (Byte.eqb b0 recordStartCode) then Err InvalidStartCode
        else
          s13 <- checked (slice bytes 1 3) ;;
          byteCount <- parsed ParsingByteCount (strconv_ParseInt s13 8) ;;
          let actualByteCount := Z.quot (len bytes - 11) 2 in
          if byteCount >? 255 then Err InvalidByteCount
          else if negb (byteCount =? actualByteCount)
          then Err (ByteCountMismatch byteCount actualByteCount)
          else
            data0 <- checked (make byteCount) ;;
            s37 <- checked (slice bytes 3 7) ;;
            address <- parsed ParsingAddress (strconv_ParseUint s37 16) ;;
            s79 <- checked (slice bytes 7 9) ;;
            recordType <- parsed ParsingRecordType (strconv_ParseUint s79 8) ;;
            if negb (knownRecordType recordType)
            then Err (InvalidRecordTypeValue recordType)
            else
              sData <- checked (slice bytes 9 (bytesLen - 2)) ;;
              d <- checked (hex_Decode data0 sData) ;;
              let '(data, decodedBytes, err) := d in
              match err with
              | Some e => Err (ParsingData e)
              | None =>
                  if negb (decodedBytes =? len data) then Err IncorrectNumberOfBytes
                  else
                    sSum <- checked (slice bytes (bytesLen - 2) bytesLen) ;;
                    recordChecksum <- parsed ParsingChecksum (strconv_ParseUint sSum 8) ;;
                    let actualChecksum := generateChecksum data (byte_of_Z recordType) in
                    if negb (Byte.eqb (byte_of_Z recordChecksum) actualChecksum)
                    then Err ChecksumMismatch
                    else Ok (mkRecord (byte_of_Z recordType) (uint16 address) data, rest)
              end
  end.

End Decoder.

(** ** ihex.go: the [HexFile] draft *)

Module HexFile.

(** The kind of a record (its field [RecordType] in this draft); the name
    [Type_] is the file's [Type] field from here on. *)
Local Abbreviation RecordType_of := Type_ (only parsing).

Definition maxRecordLen : Z := 521.
Definition recordStartCode : byte := byte_of_Z 58.

Definition HexFileTypeI8HEX : byte := byte_of_Z 8.
Definition HexFileTypeI16HEX : byte := byte_of_Z 16.
Definition HexFileTypeI32HEX : byte := byte_of_Z 32.

Definition RecordTypeData : byte := byte_of_Z 0.
Definition RecordTypeEndOfFile : byte := byte_of_Z 1.
Definition RecordTypeExtendedSegmentAddress : byte := byte_of_Z 2.
Definition RecordTypeStartSegmentAddress : byte := byte_of_Z 3.
Definition RecordTypeExtendedLinearAddress : byte := byte_of_Z 4.
Definition RecordTypeStartLinearAddress : byte := byte_of_Z 5.

(** The errors of [Record.read]; [EOF] is [io.EOF], which [ReadFrom]
    compares against. *)
Inductive ReadError : Type :=
| EOF
| RecordTooLong (size : Z)
| InvalidStartCode
| ParsingByteCount (e : NumError)
| InvalidByteCount
| ByteCountMismatch (byteCount actualByteCount : Z)
| ParsingAddress (e : NumError)
| ParsingRecordType (e : NumError)
| ParsingData (e : HexError)
| IncorrectNumberOfBytes
| ParsingChecksum (e : NumError)
| ChecksumMismatch.

(** The errors of [ReadFrom]; the first three carry the [lineNumber] the
    message prints, the last message has none. *)
Inductive ReadFromError : Type :=
| ErrorOnLine (lineNumber : Z) (e : ReadError)
| RecordParsedAfterEOF (lineNumber : Z)
| InvalidRecordTypeOnLine (lineNumber : Z) (recordType : byte)
| NoEOFRecord.

Inductive AddRecordError : Type :=
| InvalidRecordTypeForHEXType
| RecordAfterEOF.

Record HexFile : Type := mkHexFile {
  Type_ : byte;
  records : list Record_;
  recordIndex : Z
}.

Definition generateChecksum (data : list byte) (recordType : byte) : byte :=
  if Byte.eqb recordType RecordTypeEndOfFile then xff
  else
    let sum := sumBytes data in
    byte_of_Z (Z_of_byte (byte_of_Z (Z.land (uint32 (Z.lnot sum)) 255)) + 1).

Definition parsed {A E : Type} (wrap : E -> ReadError) (r : A * option E)
  : result ReadError A :=
  match r with
  | (_, Some e) => Err (wrap e)
  | (v, None) => Ok v
  end.

(** [Record.read] on the scanner's current token [bytes] (the source's
    undeclared [bytesLen] is [len(bytes)]). *)
Definition read (bytes : list byte) : result ReadError Record_ :=
  let bytesLen := len bytes in
  if len bytes >? maxRecordLen then Err (RecordTooLong (len bytes))
  else
    b0 <- checked (index bytes 0) ;;
    if negb (Byte.eqb b0 recordStartCode) then Err InvalidStartCode
    else
      s13 <- checked (slice bytes 1 3) ;;
      byteCount <- parsed ParsingByteCount (strconv_ParseInt s13 8) ;;
      let actualByteCount := Z.quot (len bytes - 11) 2 in
      if byteCount >? 255 then Err InvalidByteCount
      else if negb (byteCount =? actualByteCount)
      then Err (ByteCountMismatch byteCount actualByteCount)
      else
        data0 <- checked (make byteCount) ;;
        s37 <- checked (slice bytes 3 7) ;;
        address <- parsed ParsingAddress (strconv_ParseUint s37 16) ;;
        s79 <- checked (slice bytes 7 9) ;;
        recordType <- parsed ParsingRecordType (strconv_ParseUint s79 8) ;;
        sData <- checked (slice bytes 9 (bytesLen - 2)) ;;
        d <- checked (hex_Decode data0 sData) ;;
        let '(data, decodedBytes, err) := d in
        match err with
        | Some e => Err (ParsingData e)
        | None =>
            if negb (decodedBytes =? len data) then Err IncorrectNumberOfBytes
            else
              sSum <- checked (slice bytes (bytesLen - 2) bytesLen) ;;
              recordChecksum <- parsed ParsingChecksum (strconv_ParseUint sSum 8) ;;
              let actualChecksum := generateChecksum data (byte_of_Z recordType) in
              if negb (Byte.eqb (byte_of_Z recordChecksum) actualChecksum)
              then Err ChecksumMismatch
              else Ok (mkRecord (byte_of_Z recordType) (uint16 address) data)
        end.

(** [validateHEXRecord]; a [nil] record is [None]. *)
Definition validateHEXRecord (record : option Record_) (hexType : byte) : bool :=
  match record with
  | None => false
  | Some record =>
      let isDataOrEOF :=
        Byte.eqb (RecordType_of record) RecordTypeData
        || Byte.eqb (RecordType_of record) RecordTypeEndOfFile in
      if Byte.eqb hexType HexFileTypeI8HEX then isDataOrEOF
      else if Byte.eqb hexType HexFileTypeI16HEX then
        isDataOrEOF
        || Byte.eqb (RecordType_of record) RecordTypeExtendedSegmentAddress
        || Byte.eqb (RecordType_of record) RecordTypeExtendedSegmentAddress
      else if Byte.eqb hexType HexFileTypeI32HEX then
        isDataOrEOF
        || Byte.eqb (RecordType_of record) RecordTypeExtendedLinearAddress
        || Byte.eqb (RecordType_of record) RecordTypeStartLinearAddress
      else false
  end.

(** [len(records) > 0 && records[len(records)-1].RecordType == RecordTypeEndOfFile]. *)
Definition lastIsEOF (records : list Record_) : bool :=
  (len records >? 0)
  && match index records (len records - 1) with
     | Some r => Byte.eqb (RecordType_of r) RecordTypeEndOfFile
     | None => false
     end.

Definition Reset (me : HexFile) : HexFile :=
  mkHexFile (Type_ me) (records me) (-1).

(** The scanning loop of [ReadFrom] over the tokens still to come. *)
Fixpoint readLoop (hexType : byte) (tokens : list (list byte))
    (records : list Record_) (lineNumber : Z)
  : result ReadFromError (list Record_) :=
  match tokens with
  | [] => Ok records
  | bytes :: tokens' =>
      match read bytes with
      | Panic => Panic
      | Err EOF => Ok records
      | Err err => Err (ErrorOnLine lineNumber err)
      | Ok record =>
          if lastIsEOF records then Err (RecordParsedAfterEOF lineNumber)
          else if negb (validateHEXRecord (Some record) hexType)
          then Err (InvalidRecordTypeOnLine lineNumber (RecordType_of record))
          else readLoop hexType tokens' (records ++ [record]) (lineNumber + 1)
      end
  end.

(** [ReadFrom] on the whole content of the reader: the receiver after a
    successful call, or the error. *)
Definition ReadFrom (me : HexFile) (reader : list byte) : result ReadFromError HexFile :=
  records <- readLoop (Type_ me) (bufio_ScanLines (S (List.length reader)) reader) [] 1 ;;
  if (len records =? 0) || negb (lastIsEOF records) then Err NoEOFRecord
  else Ok (Reset (mkHexFile (Type_ me) records (recordIndex me))).

(** [AddRecord]: the receiver after the call and the error ([None] is [nil]). *)
Definition AddRecord (me : HexFile) (record : option Record_)
  : HexFile * option AddRecordError :=
  if negb (validateHEXRecord record (Type_ me))
  then (me, Some InvalidRecordTypeForHEXType)
  else if lastIsEOF (records me) then (me, Some RecordAfterEOF)
  else
    match record with
    | Some r => (mkHexFile (Type_ me) (records me ++ [r]) (recordIndex me), None)
    | None => (me, Some InvalidRecordTypeForHEXType)
    end.

Definition NewHexFile : HexFile := Reset (mkHexFile x00 [] 0).

End HexFile.

(** ** The decoder draft, continued: the [I8HEX] file

    [NewI8HEX] and the methods of the draft's [I8HEX] type, which call
    [readRecord] and the draft's own [Record.write]. *)

Module I8HEXFileDraft.

Record I8HEX : Type := mkI8HEX {
  records : list Record_;
  addressOffset : Z;
  recordIndex : Z
}.

(** The errors of [NewI8HEX]; both messages start with the line number. *)
Inductive NewError : Type :=
| ErrorOnLine (lineNumber : Z) (e : Decoder.ReadError)
| InvalidRecordTypeOnLine (lineNumber : Z) (recordType : byte).

(** The bytes the draft's [Record.write] assembles: each [WriteString] on
    the buffer succeeds, so every field is appended. *)
Definition writeLine (me : Record_) : list byte :=
  [":"%byte]
  ++ fmt_X 2 (len (Data me))
  ++ fmt_X 4 (AddressOffset me)
  ++ fmt_X 2 (Z_of_byte (Type_ me))
  ++ strings_ToUpper (hex_Encode (Data me))
  ++ fmt_X 2 (Z_of_byte (Decoder.generateChecksum (Data me) (Type_ me)))
  ++ ["010"%byte].

(** The draft's [Record.write]: the sink after the call (the error of an
    in-memory sink is [nil]). *)
Definition write (me : Record_) (writer : Writer) : Writer :=
  fst (Writer_Write writer (writeLine me)).

(** [NextRecord]: the record ([None] is [nil]) and the receiver after the
    call; the outer [None] is the panic of an index out of range. *)
Definition NextRecord (me : I8HEX) : option (option Record_ * I8HEX) :=
  if recordIndex me >=? len (records me) then Some (None, me)
  else
    match index (records me) (recordIndex me) with
    | None => None
    | Some record =>
        Some (Some record, mkI8HEX (records me) (addressOffset me) (recordIndex me + 1))
    end.

(** [WriteFile], on a sink that accepts every write. *)
Definition WriteFile (me : I8HEX) (file : Writer) : Writer :=
  fold_left (fun w record => write record w) (records me) file.

Definition AddRecord (me : I8HEX) (record : Record_) : I8HEX :=
  mkI8HEX (records me ++ [record]) (addressOffset me) (recordIndex me).

Definition Size (me : I8HEX) : Z := len (records me).

Definition Reset (me : I8HEX) : I8HEX :=
  mkI8HEX (records me) (addressOffset me) 0.

(** The loop of [NewI8HEX] on the unread input; each pass that goes on has
    consumed a line, so [fuel] above the input's length is never used up. *)
Fixpoint newLoop (fuel : nat) (reader : list byte) (records : list Record_)
    (lineNumber : Z) : result NewError (list Record_) :=
  match fuel with
  | O => Ok records
  | S fuel' =>
      match Decoder.readRecord reader with
      | Panic => Panic
      | Err Decoder.EOF => Ok records
      | Err err => Err (ErrorOnLine lineNumber err)
      | Ok (record, rest) =>
          if negb (Z_of_byte (Type_ record) =? Decoder.RecordTypeData)
             && negb (Z_of_byte (Type_ record) =? Decoder.RecordTypeEndOfFile)
          then Err (InvalidRecordTypeOnLine lineNumber (Type_ record))
          else newLoop fuel' rest (records ++ [record]) (lineNumber + 1)
      end
  end.

Definition NewI8HEX (reader : list byte) : result NewError I8HEX :=
  records <- newLoop (S (List.length reader)) reader [] 1 ;;
  Ok (mkI8HEX records 0 0).

End I8HEXFileDraft.

(** ** Definitions used to state the properties *)

(** The mathematical sum of the payload bytes. *)
Definition byteSum (data : list byte) : Z :=
  fold_right (fun d s => Z_of_byte d + s) 0 data.

(** The legality table of kinds and variants, as the format rules give it:
    Data and EndOfFile everywhere, the two segment kinds for I16HEX only,
    the two linear kinds for I32HEX only, nothing else. *)
Definition legalKind (kind : RecordType) (variant : FileType) : bool :=
  match kind with
  | x00 | x01 => true
  | x02 | x03 => Byte.eqb variant I16HEX
  | x04 | x05 => Byte.eqb variant I32HEX
  | _ => false
  end.

(** The line number an error of [ReadFrom] is annotated with, if any. *)
Definition lineNumberOf (e : HexFile.ReadFromError) : option Z :=
  match e with
  | HexFile.ErrorOnLine n _ => Some n
  | HexFile.RecordParsedAfterEOF n => Some n
  | HexFile.InvalidRecordTypeOnLine n _ => Some n
  | HexFile.NoEOFRecord => None
  end.

(** [n] successive calls of [ReadNext]: what each returned, and the
    container after the last. *)
Fixpoint readMany (n : nat) (me : Files.HEXFile)
  : option (list (Record_ * bool) * Files.HEXFile) :=
  match n with
  | O => Some ([], me)
  | S n' =>
      match Files.ReadNext me with
      | None => None
      | Some (r, more, me') =>
          match readMany n' me' with
          | None => None
          | Some (rs, me'') => Some ((r, more) :: rs, me'')
          end
      end
  end.

(** The Data record [writeDataRecord] builds at a given record count. *)
Definition dataRecordAt (recordCount : Z) (data : list byte) : Record_ :=
  mkRecord RecordData (uint16 (Z.land recordCount 0xFF)) data.

(** The Data records of a writer of record size 1 fed the bytes [p],
    starting at a given record count. *)
Fixpoint unitRecords (recordCount : Z) (p : list byte) : list Record_ :=
  match p with
  | [] => []
  | b :: p' => dataRecordAt recordCount [b] :: unitRecords (recordCount + 1) p'
  end.

(** An empty in-memory sink that is also an [io.Closer]. *)
Definition memorySink : Writer := mkWriter [] true false.

(** A token [ReadFrom] accepts without reaching the terminator: it decodes,
    its kind is legal for the file and is not EndOfFile. *)
Definition acceptedBeforeEOF (hexType : byte) (bytes : list byte) : Prop :=
  exists r : Record_,
    HexFile.read bytes = Ok r
    /\ HexFile.validateHEXRecord (Some r) hexType = true
    /\ Type_ r <> HexFile.RecordTypeEndOfFile.

(** An empty [HexFile] of the I8HEX kind. *)
Definition I8HEXHexFile : HexFile.HexFile :=
  HexFile.mkHexFile HexFile.HexFileTypeI8HEX [] (-1).

(** A byte that is neither a line feed nor a carriage return. *)
Definition isLineByte (c : byte) : Prop :=
  Byte.eqb c "010"%byte = false /\ Byte.eqb c "013"%byte = false.

(** The line of a record with a given checksum byte in its last field. *)
Definition recordLineWith (me : Record_) (checksum : Z) : list byte :=
  (recordStartChar :: fmt_X 2 (len (Data me)) ++ fmt_X 4 (AddressOffset me)
     ++ fmt_X 2 (Z_of_byte (Type_ me)))
  ++ strings_ToUpper (hex_Encode (Data me))
  ++ fmt_X 2 checksum
  ++ ["010"%byte].

(** The Data records a writer emits for successive payloads, starting at a
    given record count. *)
Fixpoint dataRecordsFrom (recordCount : Z) (chunks : list (list byte)) : list Record_ :=
  match chunks with
  | [] => []
  | data :: chunks' =>
      dataRecordAt recordCount data :: dataRecordsFrom (recordCount + 1) chunks'
  end.

(** A writer as [NewFileWriterType] and [Write] leave it: a buffer of
    [recordSize] bytes, a fill index inside it, a record count that is
    not negative. *)
Definition wellFormedWriter (me : FileWriter) : Prop :=
  len (buffer me) = recordSize me
  /\ 0 <= bufferIndex me < recordSize me
  /\ 0 <= recordCount me.

(** The record count at which [writeDataRecord] refuses, for a file type
    that has no extension records (for a type other than the three known
    ones no count is refused; the bound then keeps the counter in range). *)
Definition plainLimit (fileType : FileType) : Z :=
  if Byte.eqb fileType I8HEX then writerMaximumI8HEXRecords
  else if Byte.eqb fileType I32HEX then writerMaximumI32HEXRecords
  else 2 ^ 62.

(** A sequence with no EndOfFile record before its last element. *)
Definition terminatorOnlyLast (records : list Record_) : Prop :=
  Forall (fun r => Type_ r <> HexFile.RecordTypeEndOfFile) (removelast records).

(** The total length of some lines. *)
Definition totalLen (lines : list (list byte)) : Z :=
  fold_right (fun l s => len l + s) 0 lines.

(** The cursor of a container stays between [-1] and the last index. *)
Definition cursorInRange (me : Files.HEXFile) : Prop :=
  -1 <= Files.recordIndex me <= len (Files.records me) - 1.

(** A record [NewI8HEX] reads back: Data or EndOfFile, fewer than 128
    payload bytes, a 16-bit address. *)
Definition readableByI8HEX (r : Record_) : Prop :=
  (Type_ r = RecordData \/ Type_ r = RecordEOF)
  /\ len (Data r) < 128
  /\ 0 <= AddressOffset r < 65536.

(** The line of a record without its line feed. *)
Definition lineBody (me : Record_) : list byte :=
  recordStartChar
  :: fmt_X 2 (len (Data me)) ++ fmt_X 4 (AddressOffset me)
     ++ fmt_X 2 (Z_of_byte (Type_ me))
     ++ strings_ToUpper (hex_Encode (Data me))
     ++ fmt_X 2 (Z_of_byte (getChecksum me)).

(** A record [ReadFrom] reads back into a file of the given type: legal
    for the type, fewer than 128 payload bytes, a 16-bit address. *)
Definition readableByReadFrom (hexType : byte) (r : Record_) : Prop :=
  HexFile.validateHEXRecord (Some r) hexType = true
  /\ len (Data r) < 128
  /\ 0 <= AddressOffset r < 65536.

(** * Properties *)

(** ** Bytes and fixed-width arithmetic *)

Lemma Z_of_byte_range (b : byte) : 0 <= Z_of_byte b < 256.
Proof.
  unfold Z_of_byte. pose proof (Byte.to_N_bounded b). lia.
Qed.

Lemma Z_of_byte_of_Z (z : Z) : Z_of_byte (byte_of_Z z) = z mod 256.
Proof.
  unfold byte_of_Z, Z_of_byte.
  assert (Hr : 0 <= z mod 256 < 256) by (apply Z.mod_pos_bound; lia).
  destruct (Byte.of_N (Z.to_N (z mod 256))) as [b|] eqn:E.
  - apply Byte.to_of_N in E. rewrite E. lia.
  - apply Byte.of_N_None_iff in E. lia.
Qed.

Lemma byte_of_Z_of_byte (b : byte) : byte_of_Z (Z_of_byte b) = b.
Proof.
  unfold byte_of_Z. pose proof (Z_of_byte_range b) as Hr.
  rewrite Z.mod_small by lia. unfold Z_of_byte. rewrite N2Z.id, Byte.of_to_N.
  reflexivity.
Qed.

Lemma uint32_add (a b : Z) : uint32 (uint32 a + uint32 b) = uint32 (a + b).
Proof.
  unfold uint32. rewrite <- Z.add_mod by lia. reflexivity.
Qed.

(** ** The checksum *)

Lemma sumBytes_fold (data : list byte) (a : Z) :
  fold_left (fun sum d => uint32 (sum + uint32 (Z_of_byte d))) data (uint32 a)
  = uint32 (a + byteSum data).
Proof.
  revert a. induction data as [|d data IH]; intros a; cbn [fold_left byteSum fold_right].
  - f_equal. lia.
  - rewrite uint32_add, IH. f_equal. unfold byteSum. lia.
Qed.

Lemma sumBytes_mod (data : list byte) : sumBytes data = byteSum data mod 2 ^ 32.
Proof.
  unfold sumBytes. change 0 with (uint32 0) at 1. rewrite sumBytes_fold. reflexivity.
Qed.

Lemma checksum_arith (S : Z) :
  (S + ((Z.land (uint32 (Z.lnot (S mod 2 ^ 32))) 255) mod 256 + 1) mod 256) mod 256 = 0.
Proof.
  change 255 with (Z.ones 8). rewrite Z.land_ones by lia.
  unfold uint32, Z.lnot. change (2 ^ 8) with 256. change (2 ^ 32) with 4294967296.
  Z.div_mod_to_equations. lia.
Qed.

(** The byte [getChecksum] returns for a kind other than EndOfFile. *)
Lemma getChecksum_value (kind : RecordType) (addr : Z) (data : list byte) :
  kind <> RecordEOF ->
  Z_of_byte (getChecksum (mkRecord kind addr data))
  = ((Z.land (uint32 (Z.lnot (byteSum data mod 2 ^ 32))) 255) mod 256 + 1) mod 256.
Proof.
  intros Hk. unfold getChecksum. cbn [Type_ Data].
  destruct (Byte.eqb kind RecordEOF) eqn:E.
  - apply Byte.byte_dec_bl in E. contradiction.
  - rewrite !Z_of_byte_of_Z, sumBytes_mod. reflexivity.
Qed.

(** C5: for every payload of at most 255 bytes and every kind other than
    EndOfFile, the payload sum plus the checksum is 0 modulo 256; for the
    EndOfFile kind the checksum is 0xFF whatever the payload. *)
Theorem checksum_complements_sum :
  (forall (data : list byte) (kind : RecordType) (addr : Z),
      len data <= 255 -> kind <> RecordEOF ->
      (byteSum data + Z_of_byte (getChecksum (mkRecord kind addr data))) mod 256 = 0)
  /\ (forall (data : list byte) (addr : Z),
         getChecksum (mkRecord RecordEOF addr data) = xff).
Proof.
  split.
  - intros data kind addr _ Hk. rewrite getChecksum_value by assumption.
    apply checksum_arith.
  - intros data addr. reflexivity.
Qed.

Lemma checksum_complements_sum_witness :
  (byteSum [xaa] + Z_of_byte (getChecksum (mkRecord RecordData 16 [xaa]))) mod 256 = 0.
Proof.
  apply (proj1 checksum_complements_sum [xaa] RecordData 16).
  - unfold len. simpl. lia.
  - discriminate.
Defined.

(** ** The legality check *)

(** C7: [validate] is a total function of the kind and the variant alone,
    and its value is the legality table: true for Data and EndOfFile under
    every variant, for the segment kinds under I16HEX only, for the linear
    kinds under I32HEX only, false otherwise. *)
Theorem validate_is_legality_table (me : Record_) (fileType : FileType) :
  validate me fileType = legalKind (Type_ me) fileType.
Proof.
  unfold validate, legalKind.
  destruct (Type_ me); cbn; try reflexivity;
    destruct (Byte.eqb fileType I16HEX), (Byte.eqb fileType I32HEX); reflexivity.
Qed.

Example validate_ExtSegment_Linear (a : Z) (d : list byte) :
  validate (mkRecord RecordExtSegment a d) I32HEX = false.
Proof. reflexivity. Qed.

Example validate_ExtSegment_Segmented (a : Z) (d : list byte) :
  validate (mkRecord RecordExtSegment a d) I16HEX = true.
Proof. reflexivity. Qed.

(** ** The containers: cursor and append *)

Lemma skipn_nth_error {A : Type} (l : list A) (i : nat) (a : A) :
  nth_error l i = Some a -> skipn i l = a :: skipn (S i) l.
Proof.
  revert i. induction l as [|x l IH]; intros [|i] H; simpl in *;
    try discriminate.
  - injection H as ->. reflexivity.
  - apply IH. exact H.
Qed.

Lemma ReadNext_exhausted (me : Files.HEXFile) :
  Files.recordIndex me + 1 >= len (Files.records me) ->
  Files.ReadNext me = Some (emptyRecord, false, me).
Proof.
  intros H. unfold Files.ReadNext.
  destruct (Files.recordIndex me + 1 >=? len (Files.records me)) eqn:E.
  - reflexivity.
  - rewrite Z.geb_leb in E. apply Z.leb_gt in E. lia.
Qed.

Lemma ReadNext_advances (recs : list Record_) (i : nat) (r : Record_) :
  nth_error recs i = Some r ->
  Files.ReadNext (Files.mkHEXFile (Z.of_nat i - 1) recs)
  = Some (r, true, Files.mkHEXFile (Z.of_nat i) recs).
Proof.
  intros H. unfold Files.ReadNext. cbn [Files.recordIndex Files.records].
  assert (Hlt : (i < List.length recs)%nat) by (apply nth_error_Some; congruence).
  replace (Z.of_nat i - 1 + 1) with (Z.of_nat i) by lia.
  destruct (Z.of_nat i >=? len recs) eqn:E.
  - rewrite Z.geb_leb in E. apply Z.leb_le in E. unfold len in E. lia.
  - unfold index, len.
    replace ((0 <=? Z.of_nat i) && (Z.of_nat i <? Z.of_nat (List.length recs)))
      with true.
    + rewrite Nat2Z.id, H. reflexivity.
    + symmetry. apply andb_true_iff. split; [apply Z.leb_le | apply Z.ltb_lt]; lia.
Qed.

Lemma readMany_exhausted (me : Files.HEXFile) (n : nat) :
  Files.recordIndex me + 1 >= len (Files.records me) ->
  readMany n me = Some (repeat (emptyRecord, false) n, me).
Proof.
  intros H. induction n as [|n IH]; cbn [readMany repeat].
  - reflexivity.
  - rewrite (ReadNext_exhausted me H), IH. reflexivity.
Qed.

Lemma readMany_from (recs : list Record_) (k : nat) :
  forall i : nat,
    (i + k = List.length recs)%nat ->
    readMany k (Files.mkHEXFile (Z.of_nat i - 1) recs)
    = Some (map (fun r => (r, true)) (skipn i recs),
            Files.mkHEXFile (len recs - 1) recs).
Proof.
  induction k as [|k IH]; intros i Hi; cbn [readMany].
  - replace i with (List.length recs) by lia.
    rewrite skipn_all. reflexivity.
  - destruct (nth_error recs i) as [r|] eqn:E.
    + rewrite (ReadNext_advances recs i r E).
      replace (Z.of_nat i) with (Z.of_nat (S i) - 1) by lia.
      rewrite (IH (S i)) by lia.
      rewrite (skipn_nth_error recs i r E). reflexivity.
    + apply nth_error_None in E. lia.
Qed.

(** C10: when the cursor's next position is past the last element,
    [ReadNext] returns the empty record and [false] and leaves the cursor
    where it is, so any number of further calls return the same; [Reset]
    puts the cursor before the first element, and the calls after it
    return the records from the first one on, in order, each with [true]. *)
Theorem ReadNext_exhaustion_and_Reset (me : Files.HEXFile) :
  (Files.recordIndex me + 1 >= len (Files.records me) ->
     Files.ReadNext me = Some (emptyRecord, false, me)
     /\ forall n : nat, readMany n me = Some (repeat (emptyRecord, false) n, me))
  /\ Files.Reset me = Files.mkHEXFile (-1) (Files.records me)
  /\ readMany (List.length (Files.records me)) (Files.Reset me)
     = Some (map (fun r => (r, true)) (Files.records me),
             Files.mkHEXFile (len (Files.records me) - 1) (Files.records me)).
Proof.
  split; [|split].
  - intros H. split.
    + apply ReadNext_exhausted. exact H.
    + intros n. apply readMany_exhausted. exact H.
  - reflexivity.
  - unfold Files.Reset.
    exact (readMany_from (Files.records me) (List.length (Files.records me)) 0 eq_refl).
Qed.

Lemma ReadNext_exhaustion_and_Reset_witness :
  let me := Files.mkHEXFile 1 [mkRecord RecordData 0 [xaa]; mkRecord RecordEOF 0 []] in
  Files.ReadNext me = Some (emptyRecord, false, me).
Proof.
  intros me.
  apply (proj1 (ReadNext_exhaustion_and_Reset me)).
  vm_compute. discriminate.
Defined.

(** Whatever the container holds, [Add] appends a record whose kind is
    legal for the variant: the records already stored are not looked at. *)
Lemma Add_accepts_legal (GetType : FileType) (me : Files.HEXFile) (r : Record_) :
  validate r GetType = true ->
  Files.Add GetType me r
  = (Files.mkHEXFile (Files.recordIndex me) (Files.records me ++ [r]), None).
Proof.
  intros H. unfold Files.Add. rewrite H. reflexivity.
Qed.

(** The [HexFile] draft does refuse: once the last record is an EndOfFile
    record, [AddRecord] returns an error and leaves the receiver as it was. *)
Lemma AddRecord_refuses_after_EOF (me : HexFile.HexFile) (record : option Record_) :
  HexFile.lastIsEOF (HexFile.records me) = true ->
  exists e, HexFile.AddRecord me record = (me, Some e).
Proof.
  intros H. unfold HexFile.AddRecord. rewrite H.
  destruct (negb (HexFile.validateHEXRecord record (HexFile.Type_ me))); eauto.
Qed.

(** C8, at the failing input: an I8HEX (and an I16HEX) container that
    already holds an EndOfFile record accepts a further Data record; the
    call returns no error and the sequence grows. *)
Theorem Add_after_EOF_is_accepted :
  let eof := mkRecord RecordEOF 0 [] in
  let r := mkRecord RecordData 0 [xaa] in
  I8HEXFile.AddRecords I8HEXFile.NewI8HEXFile [eof; r]
  = (Files.mkHEXFile (-1) [eof; r], None)
  /\ I8HEXFile.Add (Files.mkHEXFile (-1) [eof]) r
     = (Files.mkHEXFile (-1) [eof; r], None)
  /\ I16HEXFile.Add (Files.mkHEXFile (-1) [eof]) r
     = (Files.mkHEXFile (-1) [eof; r], None).
Proof.
  repeat split.
Qed.

(** ** The streaming writer *)

Lemma PutUint16_empty (v : Z) : binary_PutUint16 [] v = None.
Proof. reflexivity. Qed.

Lemma make_0 : make 0 = Some [].
Proof. reflexivity. Qed.

Lemma int64_small (z : Z) : - 2 ^ 63 <= z < 2 ^ 63 -> int64 z = z.
Proof.
  intros H. unfold int64. rewrite Z.mod_small; lia.
Qed.

(** Every call of [writeDataRecord] that returns either reports the record
    limit and leaves the writer as it was, or has written exactly one line,
    the Data record of the buffer; a call that needs an extension record
    does not return. *)
Lemma writeDataRecord_returns (me me' : FileWriter) (data : list byte)
    (n : Z) (e : option WriterError) :
  writeDataRecord me data = Some (me', n, e) ->
  (e = Some (ErrMaximumRecords (fileType me)) /\ me' = me /\ n = 0)
  \/ (e = None
      /\ addressExtensionOf (fileType me) (recordCount me)
           (uint16 (Z.land (recordCount me) 0xFF)) = 0
      /\ me' = set_writer (set_recordCount me (int64 (recordCount me + 1)))
                 (fst (write (dataRecordAt (recordCount me) data) (writer me)))
      /\ n = len (recordLine (dataRecordAt (recordCount me) data))).
Proof.
  unfold writeDataRecord.
  destruct (_ || _ || _).
  - intros H. injection H as <- <- <-. left. auto.
  - set (ext := addressExtensionOf _ _ _).
    assert (Hext : 0 <= ext).
    { unfold ext, addressExtensionOf, uint16.
      repeat match goal with |- context [if ?c then _ else _] => destruct c end;
        apply Z.mod_pos_bound; lia. }
    destruct (ext >? 0) eqn:E.
    + rewrite make_0. cbv beta iota. rewrite PutUint16_empty. discriminate.
    + cbv beta iota zeta delta [write Writer_Write]. intros H.
      injection H as <- <- <-. right.
      rewrite Z.gtb_ltb in E. apply Z.ltb_ge in E.
      repeat split; try lia.
Qed.

Lemma linear_extension_is_zero (recordCount address : Z) :
  addressExtensionOf I32HEX recordCount address = 0.
Proof.
  unfold addressExtensionOf.
  assert (H : Z.shiftr (Z.land recordCount 0xFF00) 16 = 0).
  { apply Z.bits_inj'. intros n Hn.
    rewrite Z.shiftr_spec, Z.land_spec, Z.bits_0 by assumption.
    rewrite (Z.bits_above_log2 0xFF00 (n + 16)).
    - apply andb_false_r.
    - lia.
    - change (Z.log2 0xFF00) with 15. lia. }
  change (Byte.eqb I32HEX I32HEX) with true. cbv iota. rewrite H.
  destruct (_ && _); reflexivity.
Qed.

Lemma writeDataRecord_linear (me : FileWriter) (data : list byte) :
  fileType me = I32HEX ->
  recordCount me < writerMaximumI32HEXRecords ->
  writeDataRecord me data
  = Some (set_writer (set_recordCount me (int64 (recordCount me + 1)))
            (fst (write (dataRecordAt (recordCount me) data) (writer me))),
          len (recordLine (dataRecordAt (recordCount me) data)), None).
Proof.
  intros Hft Hrc. unfold writeDataRecord. rewrite Hft, linear_extension_is_zero.
  change (Byte.eqb I32HEX I8HEX) with false.
  change (Byte.eqb I32HEX I16HEX) with false.
  change (Byte.eqb I32HEX I32HEX) with true.
  replace (recordCount me >=? writerMaximumI32HEXRecords) with false
    by (symmetry; rewrite Z.geb_leb; apply Z.leb_gt; exact Hrc).
  cbv beta iota zeta delta [orb andb Z.gtb Z.compare write Writer_Write fst].
  rewrite Z.add_0_r. reflexivity.
Qed.

Lemma writeLoop_unit_records (p : list byte) :
  forall (rc : Z) (b0 : byte) (w : Writer) (sum : Z) (cl : bool),
    0 <= rc -> rc + len p <= writerMaximumI32HEXRecords ->
    exists (b1 : byte) (n : Z),
      writeLoop (mkFileWriter 1 rc [b0] 0 I32HEX w cl) p sum
      = Some (mkFileWriter 1 (rc + len p) [b1] 0 I32HEX
                (mkWriter (written w ++ map recordLine (unitRecords rc p))
                   (isCloser w) (sinkClosed w)) cl, n, None).
Proof.
  induction p as [|b p IH]; intros rc b0 w sum cl Hrc Hlim.
  - exists b0, sum. cbn [writeLoop unitRecords map].
    change (len (@nil byte)) with 0. rewrite Z.add_0_r, app_nil_r.
    destruct w; reflexivity.
  - assert (Hlen : len (b :: p) = 1 + len p) by (unfold len; cbn [List.length]; lia).
    rewrite Hlen in *.
    assert (Hp : 0 <= len p) by (unfold len; lia).
    unfold writerMaximumI32HEXRecords in Hlim.
    cbn [writeLoop buffer bufferIndex].
    change (store [b0] 0 b) with (Some [b]). cbv beta iota.
    cbv beta iota delta [set_buffer set_bufferIndex recordSize recordCount buffer
                           bufferIndex fileType writer closed].
    change (0 + 1 >=? 1) with true. cbv beta iota.
    rewrite writeDataRecord_linear;
      cbv beta iota delta [fileType recordCount]; [|reflexivity|unfold writerMaximumI32HEXRecords; lia].
    cbv beta iota delta [set_writer set_recordCount recordSize recordCount buffer
                           bufferIndex fileType writer closed write Writer_Write fst].
    rewrite int64_small by lia.
    destruct (IH (rc + 1) b
                (mkWriter (written w ++ [recordLine (dataRecordAt rc [b])])
                   (isCloser w) (sinkClosed w))
                (sum + len (recordLine (dataRecordAt rc [b]))) cl)
      as (b1 & n & Heq); [lia | unfold writerMaximumI32HEXRecords; lia |].
    exists b1, n. rewrite Heq. cbn [written isCloser sinkClosed unitRecords map].
    rewrite <- app_assoc. cbn [app].
    replace (rc + 1 + len p) with (rc + (1 + len p)) by lia. reflexivity.
Qed.

(** The address [writeDataRecord] gives a Data record is the record count
    modulo 256. *)
Lemma dataRecordAt_address (recordCount : Z) (data : list byte) :
  AddressOffset (dataRecordAt recordCount data) = recordCount mod 256.
Proof.
  unfold dataRecordAt, uint16. cbn [AddressOffset].
  change 0xFF with (Z.ones 8). rewrite Z.land_ones by lia.
  change (2 ^ 8) with 256. change (2 ^ 16) with 65536.
  pose proof (Z.mod_pos_bound recordCount 256 ltac:(lia)).
  apply Z.mod_small. lia.
Qed.

Lemma closeSink_written (me : FileWriter) :
  written (writer (closeSink me)) = written (writer me).
Proof.
  unfold closeSink. destruct (isCloser (writer me)); reflexivity.
Qed.

(** Whatever the state of the writer, a call of [Close] that returns has
    written nothing or one Data record: no other kind of record. *)
Lemma Close_writes_at_most_one_Data_record (me me' : FileWriter)
    (e : option WriterError) :
  Close me = Some (me', e) ->
  written (writer me') = written (writer me)
  \/ exists data : list byte,
      written (writer me')
      = written (writer me) ++ [recordLine (dataRecordAt (recordCount me) data)].
Proof.
  unfold Close. destruct (closed me).
  - intros H. injection H as <- <-. left. reflexivity.
  - destruct (bufferIndex (set_closed me true) >? 0).
    + destruct (zeroLoop _ _ _) as [buf|]; [|discriminate].
      destruct (writeDataRecord _ _) as [[[me3 n] [err|]]|] eqn:E;
        try discriminate; intros H; injection H as <- <-;
        apply writeDataRecord_returns in E;
        destruct E as [(_ & -> & _) | (_ & _ & -> & _)];
        try rewrite closeSink_written; cbn; eauto.
    + intros H. injection H as <- <-. left. rewrite closeSink_written. reflexivity.
Qed.

(** The padding loop started at [i] keeps the first [i] bytes of the buffer
    and zeroes the rest. *)
Lemma zeroLoop_pads (fuel : nat) :
  forall (buffer : list byte) (i : Z),
    0 <= i ->
    (List.length buffer <= fuel + Z.to_nat i)%nat ->
    zeroLoop fuel buffer i
    = Some (firstn (Z.to_nat i) buffer
            ++ repeat x00 (List.length buffer - Z.to_nat i)).
Proof.
  induction fuel as [|fuel IH]; intros buffer i Hi Hfuel; cbn [zeroLoop].
  - rewrite firstn_all2 by lia.
    replace (List.length buffer - Z.to_nat i)%nat with 0%nat by lia.
    cbn [repeat]. rewrite app_nil_r. reflexivity.
  - destruct (i <? len buffer) eqn:E.
    + apply Z.ltb_lt in E. unfold len in E.
      unfold store.
      replace ((0 <=? i) && (i <? len buffer)) with true
        by (symmetry; apply andb_true_iff; split;
            [apply Z.leb_le | apply Z.ltb_lt; unfold len]; lia).
      set (n := Z.to_nat i).
      assert (Hn : (n < List.length buffer)%nat) by (unfold n; lia).
      assert (Hfirst : List.length (firstn n buffer) = n)
        by (rewrite length_firstn; lia).
      assert (Hlen' : List.length (firstn n buffer ++ x00 :: skipn (S n) buffer)
                      = List.length buffer).
      { rewrite List.length_app, Hfirst. cbn [List.length]. rewrite length_skipn. lia. }
      rewrite IH by (rewrite ?Hlen'; lia).
      replace (Z.to_nat (i + 1)) with (S n) by (unfold n; lia).
      rewrite Hlen'. f_equal.
      rewrite firstn_app, Hfirst.
      rewrite firstn_all2 by lia.
      replace (S n - n)%nat with 1%nat by lia. cbn [firstn].
      rewrite <- app_assoc. cbn [app].
      replace (List.length buffer - n)%nat with (S (List.length buffer - S n)) by lia.
      reflexivity.
    + apply Z.ltb_ge in E. unfold len in E.
      rewrite firstn_all2 by lia.
      replace (List.length buffer - Z.to_nat i)%nat with 0%nat by lia.
      cbn [repeat]. rewrite app_nil_r. reflexivity.
Qed.

(** The record [Close] flushes when bytes are pending: the buffer up to and
    including the byte at the fill index, then zeroes. *)
Lemma Close_flushes_one_byte_too_many (me me' : FileWriter) :
  closed me = false ->
  0 < bufferIndex me ->
  Close me = Some (me', None) ->
  written (writer me')
  = written (writer me)
    ++ [recordLine
          (dataRecordAt (recordCount me)
             (firstn (Z.to_nat (bufferIndex me + 1)) (buffer me)
              ++ repeat x00 (List.length (buffer me)
                             - Z.to_nat (bufferIndex me + 1))))].
Proof.
  intros Hcl Hidx. unfold Close. rewrite Hcl.
  destruct me as [rs rc buf idx ft w cl].
  cbn [set_closed set_buffer bufferIndex buffer recordCount writer closed
         recordSize fileType] in *.
  replace (idx >? 0) with true by (symmetry; rewrite Z.gtb_ltb; apply Z.ltb_lt; lia).
  rewrite zeroLoop_pads by lia.
  destruct (writeDataRecord _ _) as [[[me3 n] [err|]]|] eqn:E; try discriminate.
  intros H. injection H as <-. rewrite closeSink_written.
  apply writeDataRecord_returns in E.
  destruct E as [(E & _) | (_ & _ & -> & _)]; [discriminate E|].
  reflexivity.
Qed.

(** C1, at the failing input: a writer of record size 2 fed four bytes and
    closed has written the two Data records and nothing else; the output
    holds no EndOfFile record. *)
Theorem Close_writes_no_EndOfFile_record :
  exists (me0 me1 me2 : FileWriter) (n : Z),
    NewFileWriter memorySink 2 = Ok me0
    /\ Write me0 [x01; x02; x03; x04] = Some (me1, n, None)
    /\ Close me1 = Some (me2, None)
    /\ written (writer me2)
       = map recordLine [mkRecord RecordData 0 [x01; x02];
                         mkRecord RecordData 1 [x03; x04]]
    /\ ~ In (recordLine (mkRecord RecordEOF 0 [])) (written (writer me2)).
Proof.
  eexists. eexists. eexists. eexists.
  split; [reflexivity|]. split; [vm_compute; reflexivity|].
  split; [vm_compute; reflexivity|]. split; [vm_compute; reflexivity|].
  vm_compute. intros [H | [H | []]]; discriminate.
Qed.

(** C2, at the failing input: a writer of record size 3 fed four bytes
    closes with the Data record [04 02 00]: the byte at the fill index is
    left from the previous record, where the padding should have put 00. *)
Theorem Close_leaves_a_stale_byte_in_the_last_record :
  exists (me0 me1 me2 : FileWriter) (n : Z),
    NewFileWriter memorySink 3 = Ok me0
    /\ Write me0 [x01; x02; x03; x04] = Some (me1, n, None)
    /\ Close me1 = Some (me2, None)
    /\ written (writer me2)
       = map recordLine [mkRecord RecordData 0 [x01; x02; x03];
                         mkRecord RecordData 1 [x04; x02; x00]]
    /\ recordLine (mkRecord RecordData 1 [x04; x02; x00])
       <> recordLine (mkRecord RecordData 1 [x04; x00; x00]).
Proof.
  eexists. eexists. eexists. eexists.
  split; [reflexivity|]. split; [vm_compute; reflexivity|].
  split; [vm_compute; reflexivity|]. split; [vm_compute; reflexivity|].
  vm_compute. discriminate.
Qed.

(** C3, at the failing input: the 257th Data record of a writer is written
    when the record counter is 256, and its address is 0x0000, the low 8
    bits of the counter, where its low 16 bits are 0x0100. *)
Theorem Data_record_address_is_the_count_modulo_256 :
  exists (me0 me1 : FileWriter) (n : Z),
    NewFileWriter memorySink 1 = Ok me0
    /\ Write me0 (repeat x07 257) = Some (me1, n, None)
    /\ recordCount me1 = 257
    /\ nth_error (written (writer me1)) 256
       = Some (recordLine (mkRecord RecordData 0 [x07]))
    /\ recordLine (mkRecord RecordData 0 [x07])
       <> recordLine (mkRecord RecordData (Z.land 256 0xFFFF) [x07]).
Proof.
  eexists. eexists. eexists.
  split; [reflexivity|]. split; [vm_compute; reflexivity|].
  split; [vm_compute; reflexivity|]. split; [vm_compute; reflexivity|].
  vm_compute. discriminate.
Qed.

Lemma unitRecords_are_Data (p : list byte) :
  forall rc : Z, Forall (fun r => Type_ r = RecordData) (unitRecords rc p).
Proof.
  induction p as [|b p IH]; intros rc; cbn [unitRecords]; constructor.
  - reflexivity.
  - apply IH.
Qed.

Lemma unitRecords_length (p : list byte) :
  forall rc : Z, List.length (unitRecords rc p) = List.length p.
Proof.
  induction p as [|b p IH]; intros rc; cbn [unitRecords List.length].
  - reflexivity.
  - rewrite IH. reflexivity.
Qed.

(** C4, at the failing inputs.  An I16HEX writer of record size 1 panics on
    its 257th byte: at record count 256 it builds an extension payload in a
    slice of length 0.  An I32HEX writer of record size 1 fed 65537 bytes
    writes 65537 lines, every one a Data record: no extension record comes
    before the Data record of index 65536. *)
Theorem extension_records_are_never_written :
  (exists me0 : FileWriter,
      NewFileWriterType memorySink 1 I16HEX = Ok me0
      /\ Write me0 (repeat x00 257) = None)
  /\ (exists (me0 me1 : FileWriter) (n : Z) (rs : list Record_),
         NewFileWriterType memorySink 1 I32HEX = Ok me0
         /\ Write me0 (repeat x00 (Z.to_nat 65537)) = Some (me1, n, None)
         /\ recordCount me1 = 65537
         /\ written (writer me1) = map recordLine rs
         /\ len rs = 65537
         /\ Forall (fun r => Type_ r = RecordData) rs).
Proof.
  split.
  - eexists. split; [reflexivity|]. vm_compute. reflexivity.
  - assert (Hlen : len (repeat x00 (Z.to_nat 65537)) = 65537).
    { unfold len. rewrite repeat_length. lia. }
    destruct (writeLoop_unit_records (repeat x00 (Z.to_nat 65537)) 0 x00 memorySink 0 false)
      as (b1 & n & Heq).
    + lia.
    + rewrite Hlen. unfold writerMaximumI32HEXRecords. lia.
    + eexists. eexists. exists n. exists (unitRecords 0 (repeat x00 (Z.to_nat 65537))).
      split; [reflexivity|].
      split; [unfold Write; cbv beta iota delta [closed]; exact Heq|].
      split; [cbv beta iota delta [recordCount]; rewrite Hlen; reflexivity|].
      split; [reflexivity|].
      split; [unfold len in *; rewrite unitRecords_length; exact Hlen|].
      apply unitRecords_are_Data.
Qed.

(** ** Decoding a stream: [ReadFrom] *)

Lemma splitLF_rest_shorter (s : list byte) :
  forall (l rest : list byte),
    splitLF s = (l, Some rest) -> (List.length rest < List.length s)%nat.
Proof.
  induction s as [|c s IH]; intros l rest H; cbn [splitLF] in H.
  - discriminate H.
  - destruct (Byte.eqb c "010"%byte).
    + injection H as _ <-. cbn [List.length]. lia.
    + destruct (splitLF s) as [l' [r'|]] eqn:E; [|discriminate H].
      injection H as _ <-. specialize (IH l' r' eq_refl). cbn [List.length]. lia.
Qed.

(** The fuel [ReadFrom] gives the scanner is enough: more fuel yields the
    same tokens. *)
Lemma bufio_ScanLines_fuel (fuel : nat) :
  forall (fuel' : nat) (input : list byte),
    (List.length input < fuel)%nat -> (List.length input < fuel')%nat ->
    bufio_ScanLines fuel input = bufio_ScanLines fuel' input.
Proof.
  induction fuel as [|fuel IH]; intros fuel' input H H'; [lia|].
  destruct fuel' as [|fuel']; [lia|].
  destruct input as [|c input]; [reflexivity|].
  cbn [bufio_ScanLines].
  destruct (splitLF (c :: input)) as [l [rest|]] eqn:E; [|reflexivity].
  apply splitLF_rest_shorter in E. f_equal. apply IH; lia.
Qed.

(** One step through the body of a decoder whose result is the
    hypothesis [H]: the error branches are closed, the success branch is
    kept. *)
Ltac decoder_step H :=
  match type of H with
  | bind (checked ?o) _ = _ =>
      destruct o; cbn [bind checked] in H; [|discriminate H]
  | bind (HexFile.parsed _ ?r) _ = _ =>
      destruct r as [? [?|]]; cbn [bind HexFile.parsed] in H; [discriminate H|]
  | match ?d with _ => _ end = _ => destruct d; try discriminate H
  end.

Lemma read_never_EOF (bytes : list byte) : HexFile.read bytes <> Err HexFile.EOF.
Proof.
  intros H. unfold HexFile.read in H. cbv zeta in H.
  repeat decoder_step H.
Qed.

Lemma len_app {A : Type} (l l' : list A) : len (l ++ l') = len l + len l'.
Proof. unfold len. rewrite List.length_app. lia. Qed.

Lemma len_nonneg {A : Type} (l : list A) : 0 <= len l.
Proof. unfold len. lia. Qed.

Lemma index_last {A : Type} (l : list A) (a : A) :
  index (l ++ [a]) (len (l ++ [a]) - 1) = Some a.
Proof.
  rewrite len_app. change (len [a]) with 1. unfold index.
  pose proof (len_nonneg l) as H.
  replace ((0 <=? len l + 1 - 1) && (len l + 1 - 1 <? len (l ++ [a]))) with true.
  - replace (Z.to_nat (len l + 1 - 1)) with (List.length l) by (unfold len; lia).
    rewrite nth_error_app2 by lia. rewrite Nat.sub_diag. reflexivity.
  - symmetry. rewrite len_app. change (len [a]) with 1.
    apply andb_true_iff. split; [apply Z.leb_le | apply Z.ltb_lt]; lia.
Qed.

Lemma lastIsEOF_snoc (records : list Record_) (r : Record_) :
  HexFile.lastIsEOF (records ++ [r]) = Byte.eqb (Type_ r) HexFile.RecordTypeEndOfFile.
Proof.
  unfold HexFile.lastIsEOF. rewrite index_last.
  replace (len (records ++ [r]) >? 0) with true; [reflexivity|].
  symmetry. rewrite len_app. change (len [r]) with 1.
  pose proof (len_nonneg records). rewrite Z.gtb_ltb. apply Z.ltb_lt. lia.
Qed.

(** One step of the loop on a token that decodes. *)
Lemma readLoop_step (hexType : byte) (bytes : list byte) (tokens : list (list byte))
    (records : list Record_) (lineNumber : Z) (record : Record_) :
  HexFile.read bytes = Ok record ->
  HexFile.readLoop hexType (bytes :: tokens) records lineNumber
  = if HexFile.lastIsEOF records then Err (HexFile.RecordParsedAfterEOF lineNumber)
    else if negb (HexFile.validateHEXRecord (Some record) hexType)
         then Err (HexFile.InvalidRecordTypeOnLine lineNumber (Type_ record))
         else HexFile.readLoop hexType tokens (records ++ [record]) (lineNumber + 1).
Proof.
  intros H. cbn [HexFile.readLoop]. rewrite H. reflexivity.
Qed.

Lemma readLoop_app (hexType : byte) (pre : list (list byte)) :
  forall (rest : list (list byte)) (records records' : list Record_) (lineNumber : Z),
    HexFile.readLoop hexType pre records lineNumber = Ok records' ->
    HexFile.readLoop hexType (pre ++ rest) records lineNumber
    = HexFile.readLoop hexType rest records' (lineNumber + len pre).
Proof.
  induction pre as [|t pre IH]; intros rest records records' n H.
  - cbn [HexFile.readLoop] in H. injection H as <-.
    change (len (@nil (list byte))) with 0. rewrite Z.add_0_r. reflexivity.
  - replace (len (t :: pre)) with (1 + len pre) by (unfold len; cbn [List.length]; lia).
    cbn [app]. destruct (HexFile.read t) as [r|e|] eqn:E.
    + rewrite (readLoop_step _ _ _ _ _ _ E) in H.
      rewrite (readLoop_step _ _ _ _ _ _ E).
      destruct (HexFile.lastIsEOF records); [discriminate|].
      destruct (negb _); [discriminate|].
      rewrite (IH rest _ _ _ H). f_equal. lia.
    + cbn [HexFile.readLoop] in H. rewrite E in H.
      destruct e; try discriminate. exfalso. exact (read_never_EOF t E).
    + cbn [HexFile.readLoop] in H. rewrite E in H. discriminate.
Qed.

Lemma readLoop_accepts (hexType : byte) (tokens : list (list byte)) :
  forall (records : list Record_) (lineNumber : Z),
    HexFile.lastIsEOF records = false ->
    Forall (acceptedBeforeEOF hexType) tokens ->
    exists records' : list Record_,
      HexFile.readLoop hexType tokens records lineNumber = Ok records'
      /\ HexFile.lastIsEOF records' = false.
Proof.
  induction tokens as [|t tokens IH]; intros records n Hlast Hall.
  - exists records. split; [reflexivity | exact Hlast].
  - inversion Hall as [|t' ts' (r & Hread & Hvalid & Hkind) Hrest]; subst.
    rewrite (readLoop_step _ _ _ _ _ _ Hread), Hlast, Hvalid. cbn [negb].
    apply IH; [|exact Hrest].
    rewrite lastIsEOF_snoc. destruct (Byte.eqb _ _) eqn:E; [|reflexivity].
    apply Byte.byte_dec_bl in E. contradiction.
Qed.

(** The records [readLoop] returns beyond those it started with were each
    decoded from one of the tokens. *)
Lemma readLoop_records_from_tokens (hexType : byte) (tokens : list (list byte)) :
  forall (records records' : list Record_) (lineNumber : Z),
    HexFile.readLoop hexType tokens records lineNumber = Ok records' ->
    exists new : list Record_,
      records' = records ++ new
      /\ Forall (fun r => exists t, In t tokens /\ HexFile.read t = Ok r) new.
Proof.
  induction tokens as [|t tokens IH]; intros records records' n H.
  - cbn [HexFile.readLoop] in H. injection H as <-. exists [].
    rewrite app_nil_r. split; [reflexivity | constructor].
  - destruct (HexFile.read t) as [r|e|] eqn:E.
    + rewrite (readLoop_step _ _ _ _ _ _ E) in H.
      destruct (HexFile.lastIsEOF records); [discriminate|].
      destruct (negb _); [discriminate|].
      destruct (IH _ _ _ H) as (new & -> & Hnew).
      exists (r :: new). rewrite <- app_assoc. split; [reflexivity|].
      constructor.
      * exists t. split; [left; reflexivity | exact E].
      * eapply Forall_impl; [|exact Hnew].
        intros r' (t' & Hin & Hr'). exists t'. split; [right; exact Hin | exact Hr'].
    + cbn [HexFile.readLoop] in H. rewrite E in H.
      destruct e; try discriminate. exfalso. exact (read_never_EOF t E).
    + cbn [HexFile.readLoop] in H. rewrite E in H. discriminate.
Qed.

(** An error of the loop is raised at one token, after the tokens before
    it were accepted, and carries the start line plus that token's rank. *)
Lemma readLoop_error_line (hexType : byte) (tokens : list (list byte)) :
  forall (records : list Record_) (lineNumber : Z) (e : HexFile.ReadFromError),
    HexFile.readLoop hexType tokens records lineNumber = Err e ->
    exists (i : nat) (t : list byte) (before : list Record_),
      nth_error tokens i = Some t
      /\ HexFile.readLoop hexType (firstn i tokens) records lineNumber = Ok before
      /\ HexFile.readLoop hexType [t] before (lineNumber + Z.of_nat i) = Err e
      /\ lineNumberOf e = Some (lineNumber + Z.of_nat i).
Proof.
  induction tokens as [|t tokens IH]; intros records n e H.
  - discriminate H.
  - destruct (HexFile.read t) as [r|err|] eqn:E.
    + rewrite (readLoop_step _ _ _ _ _ _ E) in H.
      destruct (HexFile.lastIsEOF records) eqn:Hlast;
        [|destruct (negb (HexFile.validateHEXRecord (Some r) hexType)) eqn:Hval].
      * injection H as <-. exists 0%nat, t, records.
        rewrite Z.add_0_r, (readLoop_step _ _ _ _ _ _ E), Hlast. auto.
      * injection H as <-. exists 0%nat, t, records.
        rewrite Z.add_0_r, (readLoop_step _ _ _ _ _ _ E), Hlast, Hval. auto.
      * destruct (IH _ _ _ H) as (i & t' & before & Hnth & Hpre & Hat & Hline).
        exists (S i), t', before.
        replace (n + Z.of_nat (S i)) with (n + 1 + Z.of_nat i) by lia.
        cbn [nth_error firstn].
        rewrite (readLoop_step _ _ _ _ _ _ E), Hlast, Hval. auto.
    + cbn [HexFile.readLoop] in H. rewrite E in H.
      exists 0%nat, t, records. rewrite Z.add_0_r.
      cbn [nth_error firstn HexFile.readLoop]. rewrite E.
      destruct err; try discriminate H; injection H as <-; auto.
    + cbn [HexFile.readLoop] in H. rewrite E in H. discriminate H.
Qed.

Lemma lastIsEOF_true (records : list Record_) :
  HexFile.lastIsEOF records = true ->
  exists (front : list Record_) (r : Record_),
    records = front ++ [r] /\ Type_ r = HexFile.RecordTypeEndOfFile.
Proof.
  intros H. destruct records as [|r0 records].
  - discriminate H.
  - destruct (@exists_last _ (r0 :: records)) as (front & r & Heq); [discriminate|].
    rewrite Heq in H |- *. rewrite lastIsEOF_snoc in H.
    exists front, r. split; [reflexivity|]. apply Byte.byte_dec_bl. exact H.
Qed.

(** C9, as the code has it: decoding a stream fails when no line of it
    decodes to an EndOfFile record, with the error that names no line when
    every line was accepted; it fails when a record is decoded after the
    sequence already ends with an EndOfFile record, and that error carries
    the 1-based number of the offending line; every error other than the
    missing-terminator one carries the 1-based number of the line it was
    raised at. *)
Theorem ReadFrom_terminator_failures (me : HexFile.HexFile) (reader : list byte) :
  let tokens := bufio_ScanLines (S (List.length reader)) reader in
  ((forall (t : list byte) (r : Record_),
       In t tokens -> HexFile.read t = Ok r ->
       Type_ r <> HexFile.RecordTypeEndOfFile) ->
   forall me' : HexFile.HexFile, HexFile.ReadFrom me reader <> Ok me')
  /\ (Forall (acceptedBeforeEOF (HexFile.Type_ me)) tokens ->
      HexFile.ReadFrom me reader = Err HexFile.NoEOFRecord)
  /\ lineNumberOf HexFile.NoEOFRecord = None
  /\ (forall (pre : list (list byte)) (t : list byte) (post : list (list byte))
             (before : list Record_) (r : Record_),
         tokens = pre ++ t :: post ->
         HexFile.readLoop (HexFile.Type_ me) pre [] 1 = Ok before ->
         HexFile.lastIsEOF before = true ->
         HexFile.read t = Ok r ->
         HexFile.ReadFrom me reader = Err (HexFile.RecordParsedAfterEOF (len pre + 1)))
  /\ (forall e : HexFile.ReadFromError,
         HexFile.ReadFrom me reader = Err e ->
         e = HexFile.NoEOFRecord
         \/ exists (i : nat) (t : list byte) (before : list Record_),
             nth_error tokens i = Some t
             /\ HexFile.readLoop (HexFile.Type_ me) (firstn i tokens) [] 1 = Ok before
             /\ HexFile.readLoop (HexFile.Type_ me) [t] before (Z.of_nat i + 1) = Err e
             /\ lineNumberOf e = Some (Z.of_nat i + 1)).
Proof.
  intros tokens. unfold HexFile.ReadFrom. fold tokens.
  split; [|split; [|split; [|split]]].
  - intros Hno me' H.
    destruct (HexFile.readLoop (HexFile.Type_ me) tokens [] 1) as [records| |] eqn:E;
      cbn [bind] in H; try discriminate H.
    destruct (HexFile.lastIsEOF records) eqn:Hlast.
    + destruct (lastIsEOF_true records Hlast) as (front & r & -> & Hkind).
      destruct (readLoop_records_from_tokens _ _ _ _ _ E) as (new & Hnew & Hall).
      cbn [app] in Hnew. subst new.
      rewrite Forall_forall in Hall.
      destruct (Hall r) as (t & Hin & Hread).
      * apply in_or_app. right. left. reflexivity.
      * exact (Hno t r Hin Hread Hkind).
    + rewrite orb_true_r in H. discriminate H.
  - intros Hall.
    destruct (readLoop_accepts (HexFile.Type_ me) tokens [] 1 eq_refl Hall)
      as (records & -> & Hlast).
    cbn [bind]. rewrite Hlast, orb_true_r. reflexivity.
  - reflexivity.
  - intros pre t post before r Htok Hpre Hlast Hread.
    rewrite Htok, (readLoop_app _ _ _ _ _ _ Hpre),
      (readLoop_step _ _ _ _ _ _ Hread), Hlast.
    cbn [bind]. rewrite (Z.add_comm 1). reflexivity.
  - intros e H.
    destruct (HexFile.readLoop (HexFile.Type_ me) tokens [] 1) as [records|e'|] eqn:E;
      cbn [bind] in H; try discriminate H.
    + left. destruct (_ || _); [|discriminate H]. injection H as <-. reflexivity.
    + right. injection H as <-.
      destruct (readLoop_error_line _ _ _ _ _ E) as (i & t & before & H1 & H2 & H3 & H4).
      exists i, t, before. rewrite (Z.add_comm _ 1). auto.
Qed.

Lemma ReadFrom_terminator_failures_witness :
  HexFile.ReadFrom I8HEXHexFile
    (list_byte_of_string ":00000001FF" ++ ["010"%byte]
     ++ list_byte_of_string ":01001000AA56" ++ ["010"%byte])
  = Err (HexFile.RecordParsedAfterEOF
           (len [list_byte_of_string ":00000001FF"] + 1)).
Proof.
  refine (proj1 (proj2 (proj2 (proj2 (ReadFrom_terminator_failures _ _))))
            [list_byte_of_string ":00000001FF"]
            (list_byte_of_string ":01001000AA56") []
            [mkRecord x01 0 []] (mkRecord x00 16 [xaa]) _ _ _ _);
    vm_compute; reflexivity.
Defined.

(** C9 as stated fails at a one-line stream without terminator: decoding
    fails, and the error is annotated with no line number. *)
Lemma ReadFrom_missing_EOF_has_no_line_number :
  exists e : HexFile.ReadFromError,
    HexFile.ReadFrom I8HEXHexFile
      (list_byte_of_string ":01001000AA56" ++ ["010"%byte]) = Err e
    /\ lineNumberOf e = None.
Proof.
  exists HexFile.NoEOFRecord. split; vm_compute; reflexivity.
Qed.

(** ** Encoding and decoding one record *)

Example recordLine_EndOfFile :
  recordLine (mkRecord RecordEOF 0 [])
  = list_byte_of_string ":00000001FF" ++ ["010"%byte].
Proof. vm_compute. reflexivity. Qed.

Example readRecord_Data_line :
  Decoder.readRecord (list_byte_of_string ":01001000AA56" ++ ["010"%byte])
  = Ok (mkRecord RecordData 16 [xaa], []).
Proof. vm_compute. reflexivity. Qed.

Example readRecord_round_trip_127_bytes :
  let r := mkRecord RecordStartLinear 65535 (repeat xab 127) in
  Decoder.readRecord (recordLine r) = Ok (r, []).
Proof. vm_compute. reflexivity. Qed.

(** *** Hexadecimal digits *)

Lemma small_cases (d : Z) (P : Z -> Prop) :
  0 <= d < 16 ->
  P 0 -> P 1 -> P 2 -> P 3 -> P 4 -> P 5 -> P 6 -> P 7 ->
  P 8 -> P 9 -> P 10 -> P 11 -> P 12 -> P 13 -> P 14 -> P 15 -> P d.
Proof.
  intros Hd. intros.
  assert (Hc : d = 0 \/ d = 1 \/ d = 2 \/ d = 3 \/ d = 4 \/ d = 5 \/ d = 6 \/ d = 7
               \/ d = 8 \/ d = 9 \/ d = 10 \/ d = 11 \/ d = 12 \/ d = 13 \/ d = 14
               \/ d = 15) by lia.
  repeat (destruct Hc as [-> | Hc]; [assumption|]). subst d. assumption.
Qed.

Lemma fromHexChar_upperDigit (d : Z) :
  0 <= d < 16 -> fromHexChar (upperDigit d) = Some d.
Proof.
  intros Hd. pattern d. apply small_cases; [exact Hd | reflexivity ..].
Qed.

Lemma upperDigit_not_special (d : Z) :
  0 <= d < 16 ->
  Byte.eqb (upperDigit d) "+"%byte = false
  /\ Byte.eqb (upperDigit d) "-"%byte = false
  /\ Byte.eqb (upperDigit d) "010"%byte = false
  /\ Byte.eqb (upperDigit d) "013"%byte = false.
Proof.
  intros Hd. pattern d. apply small_cases; [exact Hd | repeat split ..].
Qed.

Lemma hexDigits_small (fuel : nat) (n : Z) (acc : list byte) :
  0 <= n < 16 -> hexDigits (S fuel) n acc = upperDigit n :: acc.
Proof.
  intros Hn. cbn [hexDigits]. rewrite (Z.div_small n 16), (Z.mod_small n 16) by lia.
  reflexivity.
Qed.

Lemma hexDigits_big (fuel : nat) (n : Z) (acc : list byte) :
  16 <= n ->
  hexDigits (S fuel) n acc = hexDigits fuel (n / 16) (upperDigit (n mod 16) :: acc).
Proof.
  intros Hn. cbn [hexDigits].
  assert (0 < n / 16) by (apply Z.div_str_pos; lia).
  destruct (n / 16 =? 0) eqn:E; [apply Z.eqb_eq in E; lia | reflexivity].
Qed.

Lemma log2_fuel (n k : Z) :
  0 <= k -> 2 ^ k <= n -> (Z.to_nat k <= Z.to_nat (Z.log2 n))%nat.
Proof.
  intros Hk Hn. apply Z2Nat.inj_le; [lia | apply Z.log2_nonneg |].
  apply Z.log2_le_pow2; lia.
Qed.

(** ["%02X"] of a value below 256 is its two digits. *)
Lemma fmt_X_2 (n : Z) :
  0 <= n < 256 -> fmt_X 2 n = [upperDigit (n / 16); upperDigit (n mod 16)].
Proof.
  intros Hn. unfold fmt_X. destruct (Z_lt_le_dec n 16) as [Hlt | Hge].
  - rewrite hexDigits_small by lia.
    rewrite (Z.div_small n 16), (Z.mod_small n 16) by lia. reflexivity.
  - pose proof (log2_fuel n 4 ltac:(lia) ltac:(change (2 ^ 4) with 16; lia)) as Hf.
    destruct (Z.to_nat (Z.log2 n)) as [|f]; [change (Z.to_nat 4) with 4%nat in Hf; lia|].
    rewrite hexDigits_big by lia.
    rewrite hexDigits_small by (Z.div_mod_to_equations; lia).
    reflexivity.
Qed.

(** ["%04X"] of a value below 65536 is its four digits. *)
Lemma fmt_X_4 (n : Z) :
  0 <= n < 65536 ->
  fmt_X 4 n = [upperDigit (n / 16 / 16 / 16); upperDigit (n / 16 / 16 mod 16);
               upperDigit (n / 16 mod 16); upperDigit (n mod 16)].
Proof.
  intros Hn. unfold fmt_X.
  destruct (Z_lt_le_dec n 16) as [Hlt | Hge].
  - rewrite hexDigits_small by lia.
    rewrite (Z.div_small n 16), (Z.mod_small n 16) by lia. reflexivity.
  - destruct (Z_lt_le_dec n 256) as [Hlt2 | Hge2].
    + pose proof (log2_fuel n 4 ltac:(lia) ltac:(change (2 ^ 4) with 16; lia)) as Hf.
      destruct (Z.to_nat (Z.log2 n)) as [|f];
        [change (Z.to_nat 4) with 4%nat in Hf; lia|].
      rewrite hexDigits_big by lia.
      rewrite hexDigits_small by (Z.div_mod_to_equations; lia).
      rewrite (Z.div_small (n / 16) 16), (Z.mod_small (n / 16) 16)
        by (Z.div_mod_to_equations; lia).
      reflexivity.
    + destruct (Z_lt_le_dec n 4096) as [Hlt3 | Hge3].
      * pose proof (log2_fuel n 8 ltac:(lia) ltac:(change (2 ^ 8) with 256; lia)) as Hf.
        destruct (Z.to_nat (Z.log2 n)) as [|[|f]];
          try (change (Z.to_nat 8) with 8%nat in Hf; lia).
        rewrite hexDigits_big by lia.
        rewrite hexDigits_big by (Z.div_mod_to_equations; lia).
        rewrite hexDigits_small by (Z.div_mod_to_equations; lia).
        rewrite (Z.div_small (n / 16 / 16) 16), (Z.mod_small (n / 16 / 16) 16)
          by (Z.div_mod_to_equations; lia).
        reflexivity.
      * pose proof (log2_fuel n 12 ltac:(lia) ltac:(change (2 ^ 12) with 4096; lia)) as Hf.
        destruct (Z.to_nat (Z.log2 n)) as [|[|[|f]]];
          try (change (Z.to_nat 12) with 12%nat in Hf; lia).
        rewrite hexDigits_big by lia.
        rewrite hexDigits_big by (Z.div_mod_to_equations; lia).
        rewrite hexDigits_big by (Z.div_mod_to_equations; lia).
        rewrite hexDigits_small by (Z.div_mod_to_equations; lia).
        reflexivity.
Qed.

(** *** Parsing the digits back *)

Lemma parseUintLoop_digit (d : Z) (s : list byte) (maxVal n : Z) :
  0 <= d < 16 -> 0 <= n -> n * 16 + d <= maxVal -> maxVal < 2 ^ 60 ->
  parseUintLoop (upperDigit d :: s) maxVal n = parseUintLoop s maxVal (n * 16 + d).
Proof.
  intros Hd Hn Hmax Hlim. cbn [parseUintLoop]. rewrite fromHexChar_upperDigit by exact Hd.
  replace (n >=? 2 ^ 60) with false
    by (symmetry; rewrite Z.geb_leb; apply Z.leb_gt; lia).
  replace (n * 16 + d >? maxVal) with false
    by (symmetry; rewrite Z.gtb_ltb; apply Z.ltb_ge; lia).
  reflexivity.
Qed.

Lemma ParseUint_8_digits (a b : Z) :
  0 <= a < 16 -> 0 <= b < 16 ->
  strconv_ParseUint [upperDigit a; upperDigit b] 8 = (a * 16 + b, None).
Proof.
  intros Ha Hb. unfold strconv_ParseUint. change (2 ^ 8 - 1) with 255.
  rewrite !parseUintLoop_digit by (change (2 ^ 60) with 1152921504606846976; lia).
  reflexivity.
Qed.

Lemma ParseUint_16_digits (a b c d : Z) :
  0 <= a < 16 -> 0 <= b < 16 -> 0 <= c < 16 -> 0 <= d < 16 ->
  strconv_ParseUint [upperDigit a; upperDigit b; upperDigit c; upperDigit d] 16
  = (((a * 16 + b) * 16 + c) * 16 + d, None).
Proof.
  intros Ha Hb Hc Hd. unfold strconv_ParseUint. change (2 ^ 16 - 1) with 65535.
  rewrite !parseUintLoop_digit by (change (2 ^ 60) with 1152921504606846976; lia).
  reflexivity.
Qed.

Lemma ParseInt_8_digits (a b : Z) :
  0 <= a < 16 -> 0 <= b < 16 ->
  strconv_ParseInt [upperDigit a; upperDigit b] 8
  = if a * 16 + b >=? 128 then (127, Some ErrRange) else (a * 16 + b, None).
Proof.
  intros Ha Hb. unfold strconv_ParseInt.
  destruct (upperDigit_not_special a Ha) as (-> & -> & _).
  cbn [orb negb andb]. rewrite ParseUint_8_digits by assumption.
  change (2 ^ (8 - 1)) with 128. destruct (a * 16 + b >=? 128); reflexivity.
Qed.

Lemma ParseUint_8_fmt_X (n : Z) :
  0 <= n < 256 -> strconv_ParseUint (fmt_X 2 n) 8 = (n, None).
Proof.
  intros Hn. rewrite fmt_X_2, ParseUint_8_digits by (Z.div_mod_to_equations; lia).
  f_equal. Z.div_mod_to_equations. lia.
Qed.

Lemma ParseInt_8_fmt_X (n : Z) :
  0 <= n < 256 ->
  strconv_ParseInt (fmt_X 2 n) 8
  = if n >=? 128 then (127, Some ErrRange) else (n, None).
Proof.
  intros Hn. rewrite fmt_X_2, ParseInt_8_digits by (Z.div_mod_to_equations; lia).
  replace (n / 16 * 16 + n mod 16) with n by (Z.div_mod_to_equations; lia).
  reflexivity.
Qed.

Lemma ParseUint_16_fmt_X (n : Z) :
  0 <= n < 65536 -> strconv_ParseUint (fmt_X 4 n) 16 = (n, None).
Proof.
  intros Hn. rewrite fmt_X_4, ParseUint_16_digits by (Z.div_mod_to_equations; lia).
  f_equal. Z.div_mod_to_equations. lia.
Qed.

(** *** The payload digits *)

Lemma hexDecodeLoop_byte (v : byte) (rest : list byte) :
  hexDecodeLoop (toUpperByte (hextable (Z.shiftr (Z_of_byte v) 4))
                 :: toUpperByte (hextable (Z.land (Z_of_byte v) 15)) :: rest)
  = let '(out, e) := hexDecodeLoop rest in (v :: out, e).
Proof.
  destruct v; reflexivity.
Qed.

Lemma hexDecodeLoop_Encode (data rest : list byte) :
  hexDecodeLoop (strings_ToUpper (hex_Encode data) ++ rest)
  = let '(out, e) := hexDecodeLoop rest in (data ++ out, e).
Proof.
  induction data as [|v data IH].
  - cbn [hex_Encode flat_map strings_ToUpper map app]. destruct (hexDecodeLoop rest).
    reflexivity.
  - cbn [hex_Encode flat_map strings_ToUpper map app].
    fold (hex_Encode data). fold (strings_ToUpper (hex_Encode data)).
    rewrite hexDecodeLoop_byte, IH. destruct (hexDecodeLoop rest). reflexivity.
Qed.

Lemma len_hex_Encode (data : list byte) :
  len (strings_ToUpper (hex_Encode data)) = 2 * len data.
Proof.
  unfold len, strings_ToUpper, hex_Encode. rewrite length_map.
  induction data as [|v data IH]; cbn [flat_map List.length app] in *; lia.
Qed.

(** *** Lines and slices *)

Lemma splitLF_line (l rest : list byte) :
  Forall isLineByte l -> splitLF (l ++ "010"%byte :: rest) = (l, Some rest).
Proof.
  induction 1 as [|c l [Hc _] _ IH]; cbn [splitLF app].
  - reflexivity.
  - rewrite Hc, IH. reflexivity.
Qed.

Lemma dropCR_line (l : list byte) : Forall isLineByte l -> dropCR l = l.
Proof.
  intros H. unfold dropCR. destruct (rev l) as [|c r] eqn:E; [reflexivity|].
  assert (Hin : In c l) by (apply in_rev; rewrite E; left; reflexivity).
  rewrite Forall_forall in H. destruct (H c Hin) as [_ ->]. reflexivity.
Qed.

Lemma ReadLine_line (c : byte) (l : list byte) :
  Forall isLineByte (c :: l) ->
  bufio_ReadLine ((c :: l) ++ ["010"%byte]) = Some (c :: l, []).
Proof.
  intros H. unfold bufio_ReadLine.
  change ((c :: l) ++ ["010"%byte]) with (c :: (l ++ ["010"%byte])) at 1.
  cbv iota. rewrite splitLF_line, dropCR_line by exact H. reflexivity.
Qed.

Lemma slice_at {A : Type} (s pre b post : list A) (lo hi : Z) :
  s = pre ++ b ++ post -> lo = len pre -> hi = lo + len b ->
  slice s lo hi = Some b.
Proof.
  intros -> -> ->. unfold slice.
  pose proof (len_nonneg pre). pose proof (len_nonneg b). pose proof (len_nonneg post).
  replace ((0 <=? len pre) && (len pre <=? len pre + len b)
           && (len pre + len b <=? len (pre ++ b ++ post))) with true.
  - replace (Z.to_nat (len pre + len b - len pre)) with (List.length b)
      by (unfold len; lia).
    replace (Z.to_nat (len pre)) with (List.length pre) by (unfold len; lia).
    rewrite skipn_app, skipn_all, Nat.sub_diag. cbn [skipn app].
    rewrite firstn_app, firstn_all, Nat.sub_diag. cbn [firstn]. rewrite app_nil_r. reflexivity.
  - symmetry. rewrite !len_app. rewrite !andb_true_iff, !Z.leb_le. lia.
Qed.

Lemma isLineByte_upperDigit (d : Z) : 0 <= d < 16 -> isLineByte (upperDigit d).
Proof.
  intros Hd. destruct (upperDigit_not_special d Hd) as (_ & _ & H1 & H2).
  split; assumption.
Qed.

Lemma fmt_X_2_line (n : Z) : 0 <= n < 256 -> Forall isLineByte (fmt_X 2 n).
Proof.
  intros Hn. rewrite fmt_X_2 by exact Hn.
  repeat constructor; apply isLineByte_upperDigit; Z.div_mod_to_equations; lia.
Qed.

Lemma fmt_X_4_line (n : Z) : 0 <= n < 65536 -> Forall isLineByte (fmt_X 4 n).
Proof.
  intros Hn. rewrite fmt_X_4 by exact Hn.
  repeat constructor; apply isLineByte_upperDigit; Z.div_mod_to_equations; lia.
Qed.

Lemma hex_Encode_line (data : list byte) :
  Forall isLineByte (strings_ToUpper (hex_Encode data)).
Proof.
  induction data as [|v data IH]; cbn [hex_Encode flat_map strings_ToUpper map app].
  - constructor.
  - constructor; [|constructor; [|exact IH]]; destruct v; split; reflexivity.
Qed.

Lemma len_fmt_X_2 (n : Z) : 0 <= n < 256 -> len (fmt_X 2 n) = 2.
Proof. intros Hn. rewrite fmt_X_2 by exact Hn. reflexivity. Qed.

Lemma len_fmt_X_4 (n : Z) : 0 <= n < 65536 -> len (fmt_X 4 n) = 4.
Proof. intros Hn. rewrite fmt_X_4 by exact Hn. reflexivity. Qed.

Lemma generateChecksum_getChecksum (t : byte) (a : Z) (data : list byte) :
  Decoder.generateChecksum data t = getChecksum (mkRecord t a data).
Proof.
  unfold Decoder.generateChecksum, getChecksum. cbn [Type_ Data].
  destruct t; reflexivity.
Qed.

(** *** The round trip *)

(** What [readRecord] does with the line [write] produces for a record of
    a known kind, at most 255 bytes and a 16-bit address: it returns the
    record when the payload is shorter than 128 bytes, and fails on the
    byte count otherwise. *)
Lemma readRecord_recordLine (r : Record_) :
  Decoder.knownRecordType (Z_of_byte (Type_ r)) = true ->
  len (Data r) <= 255 ->
  0 <= AddressOffset r < 65536 ->
  Decoder.readRecord (recordLine r)
  = if len (Data r) >=? 128 then Err (Decoder.ParsingByteCount ErrRange)
    else Ok (r, []).
Proof.
  destruct r as [t a data]. cbn [Type_ AddressOffset Data]. intros Hkind Hlen Haddr.
  pose proof (len_nonneg data) as Hlen0.
  pose proof (Z_of_byte_range t) as Ht.
  pose proof (Z_of_byte_range (getChecksum (mkRecord t a data))) as Hcs.
  set (BC := fmt_X 2 (len data)).
  set (AD := fmt_X 4 a).
  set (TY := fmt_X 2 (Z_of_byte t)).
  set (HEX := strings_ToUpper (hex_Encode data)).
  set (CS := fmt_X 2 (Z_of_byte (getChecksum (mkRecord t a data)))).
  assert (HBC : len BC = 2) by (apply len_fmt_X_2; lia).
  assert (HAD : len AD = 4) by (apply len_fmt_X_4; lia).
  assert (HTY : len TY = 2) by (apply len_fmt_X_2; lia).
  assert (HHEX : len HEX = 2 * len data) by apply len_hex_Encode.
  assert (HCS : len CS = 2) by (apply len_fmt_X_2; lia).
  set (bytes := recordStartChar :: BC ++ AD ++ TY ++ HEX ++ CS).
  assert (Hline : recordLine (mkRecord t a data) = bytes ++ ["010"%byte]).
  { unfold recordLine, bytes. cbn [Type_ AddressOffset Data].
    fold BC AD TY HEX CS. cbn [app]. rewrite <- !app_assoc. reflexivity. }
  assert (Hplain : Forall isLineByte bytes).
  { unfold bytes. constructor; [split; reflexivity|].
    apply Forall_app; split; [apply fmt_X_2_line; lia|].
    apply Forall_app; split; [apply fmt_X_4_line; lia|].
    apply Forall_app; split; [apply fmt_X_2_line; lia|].
    apply Forall_app; split; [apply hex_Encode_line | apply fmt_X_2_line; lia]. }
  assert (Hbytes : len bytes = 11 + 2 * len data).
  { unfold bytes. change (recordStartChar :: ?l) with ([recordStartChar] ++ l).
    rewrite !len_app. change (len [recordStartChar]) with 1. lia. }
  rewrite Hline. unfold Decoder.readRecord.
  unfold bytes at 1. rewrite ReadLine_line by exact Hplain. fold bytes.
  cbv zeta.
  replace (len bytes >? Decoder.maxRecordLen) with false
    by (symmetry; rewrite Z.gtb_ltb; apply Z.ltb_ge; unfold Decoder.maxRecordLen; lia).
  replace (index bytes 0) with (Some recordStartChar) by reflexivity.
  cbn [checked bind].
  change (negb (Byte.eqb recordStartChar Decoder.recordStartCode)) with false. cbv iota.
  rewrite (slice_at bytes [recordStartChar] BC (AD ++ TY ++ HEX ++ CS) 1 3)
    by first [reflexivity | lia].
  cbn [checked bind]. unfold BC at 1. rewrite ParseInt_8_fmt_X by lia.
  destruct (len data >=? 128) eqn:Ebig; [reflexivity|].
  rewrite Z.geb_leb in Ebig. apply Z.leb_gt in Ebig.
  cbn [Decoder.parsed bind].
  replace (Z.quot (len bytes - 11) 2) with (len data)
    by (rewrite Hbytes; replace (11 + 2 * len data - 11) with (len data * 2) by lia;
        symmetry; apply Z.quot_mul; lia).
  replace (len data >? 255) with false
    by (symmetry; rewrite Z.gtb_ltb; apply Z.ltb_ge; lia).
  rewrite Z.eqb_refl. cbn [negb].
  replace (make (len data)) with (Some (repeat x00 (List.length data)))
    by (unfold make; replace (len data <? 0) with false
          by (symmetry; apply Z.ltb_ge; lia);
        unfold len; rewrite Nat2Z.id; reflexivity).
  cbn [checked bind].
  rewrite (slice_at bytes (recordStartChar :: BC) AD (TY ++ HEX ++ CS) 3 7).
  2: { unfold bytes. rewrite <- ?app_comm_cons, <- ?app_assoc. reflexivity. }
  2: { change (recordStartChar :: BC) with ([recordStartChar] ++ BC).
       rewrite len_app. change (len [recordStartChar]) with 1. lia. }
  2: lia.
  cbn [checked bind]. unfold AD at 1. rewrite ParseUint_16_fmt_X by lia.
  cbn [Decoder.parsed bind].
  rewrite (slice_at bytes (recordStartChar :: BC ++ AD) TY (HEX ++ CS) 7 9).
  2: { unfold bytes. rewrite <- ?app_comm_cons, <- ?app_assoc. reflexivity. }
  2: { change (recordStartChar :: BC ++ AD) with ([recordStartChar] ++ BC ++ AD).
       rewrite !len_app. change (len [recordStartChar]) with 1. lia. }
  2: lia.
  cbn [checked bind]. unfold TY at 1. rewrite ParseUint_8_fmt_X by lia.
  cbn [Decoder.parsed bind]. rewrite Hkind. cbn [negb].
  rewrite (slice_at bytes (recordStartChar :: BC ++ AD ++ TY) HEX CS 9 (len bytes - 2)).
  2: { unfold bytes. rewrite <- ?app_comm_cons, <- ?app_assoc. reflexivity. }
  2: { change (recordStartChar :: BC ++ AD ++ TY)
         with ([recordStartChar] ++ BC ++ AD ++ TY).
       rewrite !len_app. change (len [recordStartChar]) with 1. lia. }
  2: lia.
  cbn [checked bind].
  assert (Hdec : hex_Decode (repeat x00 (List.length data)) HEX
                 = Some (data, len data, None)).
  { unfold hex_Decode. replace HEX with (HEX ++ []) by apply app_nil_r.
    unfold HEX. rewrite hexDecodeLoop_Encode. cbn [hexDecodeLoop].
    rewrite app_nil_r.
    replace (len (repeat x00 (List.length data)) <? len data) with false
      by (symmetry; apply Z.ltb_ge; unfold len; rewrite repeat_length; lia).
    rewrite skipn_all2 by (rewrite repeat_length; lia).
    rewrite app_nil_r. reflexivity. }
  rewrite Hdec. cbn [checked bind]. rewrite Z.eqb_refl. cbn [negb].
  rewrite (slice_at bytes (recordStartChar :: BC ++ AD ++ TY ++ HEX) CS []
             (len bytes - 2) (len bytes)).
  2: { unfold bytes. rewrite <- ?app_comm_cons, <- ?app_assoc, app_nil_r. reflexivity. }
  2: { change (recordStartChar :: BC ++ AD ++ TY ++ HEX)
         with ([recordStartChar] ++ BC ++ AD ++ TY ++ HEX).
       rewrite !len_app. change (len [recordStartChar]) with 1. lia. }
  2: lia.
  cbn [checked bind]. unfold CS at 1. rewrite ParseUint_8_fmt_X by lia.
  cbn [Decoder.parsed bind].
  rewrite !byte_of_Z_of_byte, generateChecksum_getChecksum with (a := a).
  rewrite (Byte.byte_dec_lb eq_refl). cbn [negb].
  unfold uint16. rewrite Z.mod_small by (change (2 ^ 16) with 65536; lia).
  reflexivity.
Qed.

(** C6, at the failing input: the line [write] produces for a Data record
    of 128 bytes is refused by [readRecord], which fails on the byte count
    ["80"]; the same holds at the largest payload, 255 bytes. *)
Theorem readRecord_rejects_encoded_128_byte_record :
  Decoder.readRecord (recordLine (mkRecord RecordData 0 (repeat x00 128)))
  = Err (Decoder.ParsingByteCount ErrRange)
  /\ Decoder.readRecord (recordLine (mkRecord RecordData 0 (repeat xff 255)))
     = Err (Decoder.ParsingByteCount ErrRange).
Proof.
  split; vm_compute; reflexivity.
Qed.

(** * Further properties *)

(** ** The record codec *)

Lemma ReadLine_line_then (c : byte) (l rest : list byte) :
  Forall isLineByte (c :: l) ->
  bufio_ReadLine ((c :: l) ++ "010"%byte :: rest) = Some (c :: l, rest).
Proof.
  intros H. unfold bufio_ReadLine.
  change ((c :: l) ++ "010"%byte :: rest) with (c :: (l ++ "010"%byte :: rest)) at 1.
  cbv iota. rewrite splitLF_line, dropCR_line by exact H. reflexivity.
Qed.

(** What [readRecord] does with the line of a record whose checksum field
    holds the byte [c], whatever input follows the line. *)
Lemma readRecord_recordLineWith (r : Record_) (c : Z) (rest : list byte) :
  Decoder.knownRecordType (Z_of_byte (Type_ r)) = true ->
  len (Data r) <= 255 ->
  0 <= AddressOffset r < 65536 ->
  0 <= c < 256 ->
  Decoder.readRecord (recordLineWith r c ++ rest)
  = if len (Data r) >=? 128 then Err (Decoder.ParsingByteCount ErrRange)
    else if c =? Z_of_byte (getChecksum r) then Ok (r, rest)
    else Err Decoder.ChecksumMismatch.
Proof.
  destruct r as [t a data]. cbn [Type_ AddressOffset Data]. intros Hkind Hlen Haddr Hc.
  pose proof (len_nonneg data) as Hlen0.
  pose proof (Z_of_byte_range t) as Ht.
  pose proof (Z_of_byte_range (getChecksum (mkRecord t a data))) as Hcs.
  set (BC := fmt_X 2 (len data)).
  set (AD := fmt_X 4 a).
  set (TY := fmt_X 2 (Z_of_byte t)).
  set (HEX := strings_ToUpper (hex_Encode data)).
  set (CS := fmt_X 2 c).
  assert (HBC : len BC = 2) by (apply len_fmt_X_2; lia).
  assert (HAD : len AD = 4) by (apply len_fmt_X_4; lia).
  assert (HTY : len TY = 2) by (apply len_fmt_X_2; lia).
  assert (HHEX : len HEX = 2 * len data) by apply len_hex_Encode.
  assert (HCS : len CS = 2) by (apply len_fmt_X_2; lia).
  set (bytes := recordStartChar :: BC ++ AD ++ TY ++ HEX ++ CS).
  assert (Hline : recordLineWith (mkRecord t a data) c ++ rest
                  = bytes ++ "010"%byte :: rest).
  { unfold recordLineWith, bytes. cbn [Type_ AddressOffset Data].
    fold BC AD TY HEX CS. cbn [app]. rewrite <- !app_assoc. reflexivity. }
  assert (Hplain : Forall isLineByte bytes).
  { unfold bytes. constructor; [split; reflexivity|].
    apply Forall_app; split; [apply fmt_X_2_line; lia|].
    apply Forall_app; split; [apply fmt_X_4_line; lia|].
    apply Forall_app; split; [apply fmt_X_2_line; lia|].
    apply Forall_app; split; [apply hex_Encode_line | apply fmt_X_2_line; lia]. }
  assert (Hbytes : len bytes = 11 + 2 * len data).
  { unfold bytes. change (recordStartChar :: ?l) with ([recordStartChar] ++ l).
    rewrite !len_app. change (len [recordStartChar]) with 1. lia. }
  rewrite Hline. unfold Decoder.readRecord.
  unfold bytes at 1. rewrite ReadLine_line_then by exact Hplain. fold bytes.
  cbv zeta.
  replace (len bytes >? Decoder.maxRecordLen) with false
    by (symmetry; rewrite Z.gtb_ltb; apply Z.ltb_ge; unfold Decoder.maxRecordLen; lia).
  replace (index bytes 0) with (Some recordStartChar) by reflexivity.
  cbn [checked bind].
  change (negb (Byte.eqb recordStartChar Decoder.recordStartCode)) with false. cbv iota.
  rewrite (slice_at bytes [recordStartChar] BC (AD ++ TY ++ HEX ++ CS) 1 3)
    by first [reflexivity | lia].
  cbn [checked bind]. unfold BC at 1. rewrite ParseInt_8_fmt_X by lia.
  destruct (len data >=? 128) eqn:Ebig; [reflexivity|].
  rewrite Z.geb_leb in Ebig. apply Z.leb_gt in Ebig.
  cbn [Decoder.parsed bind].
  replace (Z.quot (len bytes - 11) 2) with (len data)
    by (rewrite Hbytes; replace (11 + 2 * len data - 11) with (len data * 2) by lia;
        symmetry; apply Z.quot_mul; lia).
  replace (len data >? 255) with false
    by (symmetry; rewrite Z.gtb_ltb; apply Z.ltb_ge; lia).
  rewrite Z.eqb_refl. cbn [negb].
  replace (make (len data)) with (Some (repeat x00 (List.length data)))
    by (unfold make; replace (len data <? 0) with false
          by (symmetry; apply Z.ltb_ge; lia);
        unfold len; rewrite Nat2Z.id; reflexivity).
  cbn [checked bind].
  rewrite (slice_at bytes (recordStartChar :: BC) AD (TY ++ HEX ++ CS) 3 7).
  2: { unfold bytes. rewrite <- ?app_comm_cons, <- ?app_assoc. reflexivity. }
  2: { change (recordStartChar :: BC) with ([recordStartChar] ++ BC).
       rewrite len_app. change (len [recordStartChar]) with 1. lia. }
  2: lia.
  cbn [checked bind]. unfold AD at 1. rewrite ParseUint_16_fmt_X by lia.
  cbn [Decoder.parsed bind].
  rewrite (slice_at bytes (recordStartChar :: BC ++ AD) TY (HEX ++ CS) 7 9).
  2: { unfold bytes. rewrite <- ?app_comm_cons, <- ?app_assoc. reflexivity. }
  2: { change (recordStartChar :: BC ++ AD) with ([recordStartChar] ++ BC ++ AD).
       rewrite !len_app. change (len [recordStartChar]) with 1. lia. }
  2: lia.
  cbn [checked bind]. unfold TY at 1. rewrite ParseUint_8_fmt_X by lia.
  cbn [Decoder.parsed bind]. rewrite Hkind. cbn [negb].
  rewrite (slice_at bytes (recordStartChar :: BC ++ AD ++ TY) HEX CS 9 (len bytes - 2)).
  2: { unfold bytes. rewrite <- ?app_comm_cons, <- ?app_assoc. reflexivity. }
  2: { change (recordStartChar :: BC ++ AD ++ TY)
         with ([recordStartChar] ++ BC ++ AD ++ TY).
       rewrite !len_app. change (len [recordStartChar]) with 1. lia. }
  2: lia.
  cbn [checked bind].
  assert (Hdec : hex_Decode (repeat x00 (List.length data)) HEX
                 = Some (data, len data, None)).
  { unfold hex_Decode. replace HEX with (HEX ++ []) by apply app_nil_r.
    unfold HEX. rewrite hexDecodeLoop_Encode. cbn [hexDecodeLoop].
    rewrite app_nil_r.
    replace (len (repeat x00 (List.length data)) <? len data) with false
      by (symmetry; apply Z.ltb_ge; unfold len; rewrite repeat_length; lia).
    rewrite skipn_all2 by (rewrite repeat_length; lia).
    rewrite app_nil_r. reflexivity. }
  rewrite Hdec. cbn [checked bind]. rewrite Z.eqb_refl. cbn [negb].
  rewrite (slice_at bytes (recordStartChar :: BC ++ AD ++ TY ++ HEX) CS []
             (len bytes - 2) (len bytes)).
  2: { unfold bytes. rewrite <- ?app_comm_cons, <- ?app_assoc, app_nil_r. reflexivity. }
  2: { change (recordStartChar :: BC ++ AD ++ TY ++ HEX)
         with ([recordStartChar] ++ BC ++ AD ++ TY ++ HEX).
       rewrite !len_app. change (len [recordStartChar]) with 1. lia. }
  2: lia.
  cbn [checked bind]. unfold CS at 1. rewrite ParseUint_8_fmt_X by lia.
  cbn [Decoder.parsed bind].
  rewrite byte_of_Z_of_byte, generateChecksum_getChecksum with (a := a).
  unfold uint16. rewrite (Z.mod_small a) by (change (2 ^ 16) with 65536; lia).
  destruct (c =? Z_of_byte (getChecksum (mkRecord t a data))) eqn:Ec.
  - apply Z.eqb_eq in Ec. rewrite Ec, byte_of_Z_of_byte.
    rewrite (Byte.byte_dec_lb eq_refl). reflexivity.
  - apply Z.eqb_neq in Ec.
    destruct (Byte.eqb (byte_of_Z c) (getChecksum (mkRecord t a data))) eqn:Eb;
      [|reflexivity].
    apply Byte.byte_dec_bl in Eb. exfalso. apply Ec.
    rewrite <- Eb, Z_of_byte_of_Z, Z.mod_small by lia. reflexivity.
Qed.


(** X1: decoding inverts encoding for short records.  For a record of a
    known kind with fewer than 128 payload bytes and a 16-bit address,
    [readRecord] on the line [write] produces, followed by any input,
    returns the record and leaves exactly that input unread. *)
Theorem readRecord_inverts_write (r : Record_) (rest : list byte) :
  Decoder.knownRecordType (Z_of_byte (Type_ r)) = true ->
  len (Data r) < 128 ->
  0 <= AddressOffset r < 65536 ->
  Decoder.readRecord (recordLine r ++ rest) = Ok (r, rest).
Proof.
  intros Hkind Hlen Haddr.
  change (recordLine r) with (recordLineWith r (Z_of_byte (getChecksum r))).
  rewrite readRecord_recordLineWith; try assumption; try lia.
  - replace (len (Data r) >=? 128) with false
      by (symmetry; rewrite Z.geb_leb; apply Z.leb_gt; lia).
    rewrite Z.eqb_refl. reflexivity.
  - apply Z_of_byte_range.
Qed.

Lemma readRecord_inverts_write_witness :
  Decoder.readRecord (recordLine (mkRecord RecordExtLinear 0 [x12; x34]) ++ [xff])
  = Ok (mkRecord RecordExtLinear 0 [x12; x34], [xff]).
Proof.
  apply (readRecord_inverts_write (mkRecord RecordExtLinear 0 [x12; x34]) [xff]).
  - reflexivity.
  - vm_compute. reflexivity.
  - cbn [AddressOffset]. lia.
Defined.

(** X2: a record of a known kind with 128 to 255 payload bytes does not
    survive the trip: [readRecord] refuses the line [write] produces, with
    the range error of the byte-count parse. *)
Theorem readRecord_refuses_long_payloads (r : Record_) (rest : list byte) :
  Decoder.knownRecordType (Z_of_byte (Type_ r)) = true ->
  128 <= len (Data r) <= 255 ->
  0 <= AddressOffset r < 65536 ->
  Decoder.readRecord (recordLine r ++ rest)
  = Err (Decoder.ParsingByteCount ErrRange).
Proof.
  intros Hkind Hlen Haddr.
  change (recordLine r) with (recordLineWith r (Z_of_byte (getChecksum r))).
  rewrite readRecord_recordLineWith; try assumption; try lia.
  - replace (len (Data r) >=? 128) with true
      by (symmetry; rewrite Z.geb_leb; apply Z.leb_le; lia).
    reflexivity.
  - apply Z_of_byte_range.
Qed.

Lemma readRecord_refuses_long_payloads_witness :
  Decoder.readRecord (recordLine (mkRecord RecordData 7 (repeat x5a 200)) ++ [])
  = Err (Decoder.ParsingByteCount ErrRange).
Proof.
  apply (readRecord_refuses_long_payloads (mkRecord RecordData 7 (repeat x5a 200)) []).
  - reflexivity.
  - vm_compute. split; discriminate.
  - cbn [AddressOffset]. lia.
Defined.

(** X3: the decoder checks the checksum.  The line of a short record whose
    last field holds any byte other than the record's checksum is refused
    with the checksum error. *)
Theorem readRecord_refuses_wrong_checksum (r : Record_) (c : Z) (rest : list byte) :
  Decoder.knownRecordType (Z_of_byte (Type_ r)) = true ->
  len (Data r) < 128 ->
  0 <= AddressOffset r < 65536 ->
  0 <= c < 256 ->
  c <> Z_of_byte (getChecksum r) ->
  Decoder.readRecord (recordLineWith r c ++ rest) = Err Decoder.ChecksumMismatch.
Proof.
  intros Hkind Hlen Haddr Hc Hne.
  rewrite readRecord_recordLineWith; try assumption; try lia.
  replace (len (Data r) >=? 128) with false
    by (symmetry; rewrite Z.geb_leb; apply Z.leb_gt; lia).
  replace (c =? Z_of_byte (getChecksum r)) with false
    by (symmetry; apply Z.eqb_neq; exact Hne).
  reflexivity.
Qed.

Lemma readRecord_refuses_wrong_checksum_witness :
  Decoder.readRecord (recordLineWith (mkRecord RecordData 16 [xaa]) 0x57 ++ [])
  = Err Decoder.ChecksumMismatch.
Proof.
  apply (readRecord_refuses_wrong_checksum (mkRecord RecordData 16 [xaa]) 0x57 []).
  - reflexivity.
  - vm_compute. reflexivity.
  - cbn [AddressOffset]. lia.
  - lia.
  - vm_compute. discriminate.
Defined.

Lemma len_recordLine (r : Record_) :
  len (Data r) <= 255 ->
  0 <= AddressOffset r < 65536 ->
  len (recordLine r) = 12 + 2 * len (Data r).
Proof.
  intros Hlen Haddr. pose proof (len_nonneg (Data r)).
  pose proof (Z_of_byte_range (Type_ r)). pose proof (Z_of_byte_range (getChecksum r)).
  unfold recordLine.
  change (recordStartChar :: ?l) with ([recordStartChar] ++ l).
  rewrite !len_app, len_hex_Encode, len_fmt_X_4, !len_fmt_X_2 by lia.
  change (len [recordStartChar]) with 1. change (len ["010"%byte]) with 1. lia.
Qed.

(** X4: the size of an encoded record.  For a payload of at most 255
    bytes and a 16-bit address the line has 11 characters, two more per
    payload byte, and the line feed; without the line feed it never
    exceeds [recordMaximumSizeChars]. *)
Theorem recordLine_size (r : Record_) :
  len (Data r) <= 255 ->
  0 <= AddressOffset r < 65536 ->
  len (recordLine r) = 12 + 2 * len (Data r)
  /\ len (recordLine r) - 1 <= recordMaximumSizeChars.
Proof.
  intros Hlen Haddr. rewrite len_recordLine by assumption.
  unfold recordMaximumSizeChars. lia.
Qed.

Lemma recordLine_size_witness :
  len (recordLine (mkRecord RecordData 65535 (repeat xff 255))) = 12 + 2 * 255
  /\ len (recordLine (mkRecord RecordData 65535 (repeat xff 255))) - 1
     <= recordMaximumSizeChars.
Proof.
  apply (recordLine_size (mkRecord RecordData 65535 (repeat xff 255))).
  - vm_compute. discriminate.
  - cbn [AddressOffset]. lia.
Defined.

(** X5: an empty line is not an error but a panic.  When the unread input
    starts with a line feed, or with a carriage return and a line feed,
    [readRecord] indexes the first byte of an empty line. *)
Theorem readRecord_panics_on_empty_line (rest : list byte) :
  Decoder.readRecord ("010"%byte :: rest) = Panic
  /\ Decoder.readRecord ("013"%byte :: "010"%byte :: rest) = Panic.
Proof.
  split; reflexivity.
Qed.

Lemma fromHexChar_range (c : byte) (d : Z) : fromHexChar c = Some d -> 0 <= d < 16.
Proof.
  unfold fromHexChar. pose proof (Z_of_byte_range c) as Hr.
  repeat match goal with
         | |- context [if ?b then _ else _] => destruct b eqn:?
         end; intros Hd; inversion Hd; subst;
    repeat match goal with
           | E : (_ && _) = true |- _ => apply andb_true_iff in E; destruct E
           | E : (_ <=? _) = true |- _ => apply Z.leb_le in E
           end; lia.
Qed.

Lemma parseUintLoop_nonneg (s : list byte) :
  forall (maxVal n v : Z),
    0 <= n -> 0 <= maxVal ->
    parseUintLoop s maxVal n = (v, None) -> 0 <= v <= maxVal \/ (s = [] /\ v = n).
Proof.
  induction s as [|c s IH]; intros maxVal n v Hn Hmax H; cbn [parseUintLoop] in H.
  - right. injection H as <-. auto.
  - left. destruct (fromHexChar c) as [d|] eqn:Ed; [|discriminate H].
    apply fromHexChar_range in Ed.
    destruct (n >=? 2 ^ 60); [discriminate H|].
    destruct (n * 16 + d >? maxVal) eqn:Egt; [discriminate H|].
    rewrite Z.gtb_ltb in Egt. apply Z.ltb_ge in Egt.
    destruct (IH maxVal (n * 16 + d) v ltac:(lia) Hmax H) as [Hv | [_ ->]]; lia.
Qed.

Lemma ParseUint_range (s : list byte) (bitSize v : Z) :
  0 <= bitSize ->
  strconv_ParseUint s bitSize = (v, None) -> 0 <= v < 2 ^ bitSize.
Proof.
  intros Hb H. unfold strconv_ParseUint in H.
  destruct s as [|c s]; [discriminate H|].
  assert (0 < 2 ^ bitSize) by (apply Z.pow_pos_nonneg; lia).
  destruct (parseUintLoop_nonneg (c :: s) (2 ^ bitSize - 1) 0 v ltac:(lia) ltac:(lia) H)
    as [Hv | [Hnil _]]; [lia | discriminate Hnil].
Qed.

Lemma parseUintLoop_ErrRange (s : list byte) :
  forall (maxVal n v : Z),
    parseUintLoop s maxVal n = (v, Some ErrRange) -> v = maxVal.
Proof.
  induction s as [|c s IH]; intros maxVal n v H; cbn [parseUintLoop] in H.
  - discriminate H.
  - destruct (fromHexChar c); [|discriminate H].
    destruct (n >=? 2 ^ 60); [injection H as <-; reflexivity|].
    destruct (_ >? maxVal); [injection H as <-; reflexivity|].
    exact (IH _ _ _ H).
Qed.

Lemma ParseInt_8_range (s : list byte) (v : Z) :
  strconv_ParseInt s 8 = (v, None) -> -128 <= v <= 127.
Proof.
  unfold strconv_ParseInt. destruct s as [|c s]; [discriminate|].
  destruct (strconv_ParseUint _ 8) as [un [e|]] eqn:E.
  - destruct e; [discriminate|].
    assert (Hun : un = 255).
    { match type of E with
      | strconv_ParseUint ?d _ = _ => destruct d; [discriminate E|]
      end.
      exact (parseUintLoop_ErrRange _ _ _ _ E). }
    subst un. change (2 ^ (8 - 1)) with 128.
    destruct (Byte.eqb c "-"%byte); cbn; discriminate.
  - apply ParseUint_range in E; [|lia]. change (2 ^ 8) with 256 in E.
    change (2 ^ (8 - 1)) with 128.
    destruct (Byte.eqb c "-"%byte); cbn [negb andb].
    + destruct (un >? 128) eqn:Egt; [discriminate|].
      rewrite Z.gtb_ltb in Egt. apply Z.ltb_ge in Egt.
      intros H. injection H as <-. lia.
    + destruct (un >=? 128) eqn:Ege; [discriminate|].
      rewrite Z.geb_leb in Ege. apply Z.leb_gt in Ege.
      intros H. injection H as <-. lia.
Qed.

Lemma make_Some (n : Z) (b : list byte) : make n = Some b -> 0 <= n /\ len b = n.
Proof.
  unfold make. destruct (n <? 0) eqn:E; [discriminate|].
  apply Z.ltb_ge in E. intros H. injection H as <-.
  unfold len. rewrite repeat_length. lia.
Qed.

Lemma hex_Decode_len (dst src data : list byte) (n : Z) (e : option HexError) :
  hex_Decode dst src = Some (data, n, e) -> len data = len dst.
Proof.
  unfold hex_Decode. destruct (hexDecodeLoop src) as [out e'].
  destruct (len dst <? len out) eqn:E; [discriminate|].
  apply Z.ltb_ge in E. intros H. injection H as <- _ _.
  unfold len in *. rewrite List.length_app, length_skipn. lia.
Qed.

Lemma ReadLine_consumes (input bytes rest : list byte) :
  bufio_ReadLine input = Some (bytes, rest) ->
  (List.length rest < List.length input)%nat.
Proof.
  unfold bufio_ReadLine. destruct input as [|c input]; [discriminate|].
  destruct (splitLF (c :: input)) as [l [r|]] eqn:E; intros H; injection H as _ <-.
  - exact (splitLF_rest_shorter _ _ _ E).
  - cbn [List.length]. lia.
Qed.

Lemma knownRecordType_range (recordType : Z) :
  Decoder.knownRecordType recordType = true -> 0 <= recordType <= 5.
Proof.
  unfold Decoder.knownRecordType, Decoder.RecordTypeData, Decoder.RecordTypeEndOfFile,
    Decoder.RecordTypeExtendedLinearAddress, Decoder.RecordTypeExtendedSegmentAddress,
    Decoder.RecordTypeStartLinearAddress, Decoder.RecordTypeStartSegmentAddress.
  repeat match goal with
         | |- context [?a =? ?b] => destruct (Z.eqb_spec a b); [lia|]
         end.
  discriminate.
Qed.

(** Every step of [readRecord] that can fail, in the order of the source,
    with what each success tells. *)
Lemma readRecord_Ok (reader rest : list byte) (r : Record_) :
  Decoder.readRecord reader = Ok (r, rest) ->
  exists (bytes : list byte) (byteCount recordType : Z),
    bufio_ReadLine reader = Some (bytes, rest)
    /\ -128 <= byteCount <= 127
    /\ len (Data r) = byteCount
    /\ Decoder.knownRecordType recordType = true
    /\ Type_ r = byte_of_Z recordType
    /\ 0 <= AddressOffset r < 65536.
Proof.
  unfold Decoder.readRecord.
  destruct (bufio_ReadLine reader) as [[bytes rest']|] eqn:ERL; [|discriminate].
  cbv zeta. destruct (len bytes >? Decoder.maxRecordLen); [discriminate|].
  destruct (index bytes 0) as [b0|]; cbn [checked bind]; [|discriminate].
  destruct (negb (Byte.eqb b0 Decoder.recordStartCode)); [discriminate|].
  destruct (slice bytes 1 3) as [s13|]; cbn [checked bind]; [|discriminate].
  destruct (strconv_ParseInt s13 8) as [byteCount [e|]] eqn:EBC;
    cbn [Decoder.parsed bind]; [discriminate|].
  destruct (byteCount >? 255); [discriminate|].
  destruct (negb (byteCount =? Z.quot (len bytes - 11) 2)); [discriminate|].
  destruct (make byteCount) as [data0|] eqn:EM; cbn [checked bind]; [|discriminate].
  destruct (slice bytes 3 7) as [s37|]; cbn [checked bind]; [|discriminate].
  destruct (strconv_ParseUint s37 16) as [address [e|]] eqn:EA;
    cbn [Decoder.parsed bind]; [discriminate|].
  destruct (slice bytes 7 9) as [s79|]; cbn [checked bind]; [|discriminate].
  destruct (strconv_ParseUint s79 8) as [recordType [e|]] eqn:ET;
    cbn [Decoder.parsed bind]; [discriminate|].
  destruct (Decoder.knownRecordType recordType) eqn:EK; cbn [negb]; [|discriminate].
  destruct (slice bytes 9 (len bytes - 2)) as [sData|]; cbn [checked bind];
    [|discriminate].
  destruct (hex_Decode data0 sData) as [[[data decodedBytes] [e|]]|] eqn:ED;
    cbn [checked bind]; try discriminate.
  destruct (negb (decodedBytes =? len data)); [discriminate|].
  destruct (slice bytes (len bytes - 2) (len bytes)) as [sSum|]; cbn [checked bind];
    [|discriminate].
  destruct (strconv_ParseUint sSum 8) as [recordChecksum [e|]];
    cbn [Decoder.parsed bind]; [discriminate|].
  destruct (negb _); [discriminate|].
  intros H. injection H as <- <-.
  exists bytes, byteCount, recordType. cbn [Type_ AddressOffset Data].
  split; [reflexivity|]. split; [exact (ParseInt_8_range _ _ EBC)|].
  split.
  - apply hex_Decode_len in ED. apply make_Some in EM. lia.
  - split; [exact EK|]. split; [reflexivity|].
    unfold uint16. apply Z.mod_pos_bound. lia.
Qed.

(** X6: what [readRecord] can return.  A record it returns has one of the
    six known kinds, at most 127 payload bytes and a 16-bit address, and
    the call has consumed at least one byte of the input. *)
Theorem readRecord_returns_small_known_records
    (reader rest : list byte) (r : Record_) :
  Decoder.readRecord reader = Ok (r, rest) ->
  Decoder.knownRecordType (Z_of_byte (Type_ r)) = true
  /\ len (Data r) <= 127
  /\ 0 <= AddressOffset r < 65536
  /\ (List.length rest < List.length reader)%nat.
Proof.
  intros H.
  destruct (readRecord_Ok _ _ _ H)
    as (bytes & byteCount & recordType & HRL & HBC & Hlen & HK & HT & HA).
  pose proof (knownRecordType_range _ HK) as Hrange.
  split; [|split; [lia | split; [exact HA | exact (ReadLine_consumes _ _ _ HRL)]]].
  rewrite HT, Z_of_byte_of_Z, Z.mod_small by lia. exact HK.
Qed.

Lemma readRecord_returns_small_known_records_witness :
  Decoder.knownRecordType (Z_of_byte (Type_ (mkRecord RecordData 16 [xaa]))) = true
  /\ len (Data (mkRecord RecordData 16 [xaa])) <= 127
  /\ 0 <= AddressOffset (mkRecord RecordData 16 [xaa]) < 65536
  /\ (List.length (@nil byte)
      < List.length (list_byte_of_string ":01001000AA56" ++ ["010"%byte]))%nat.
Proof.
  apply (readRecord_returns_small_known_records
           (list_byte_of_string ":01001000AA56" ++ ["010"%byte]) []
           (mkRecord RecordData 16 [xaa])).
  vm_compute. reflexivity.
Defined.

(** ** The typed containers *)

Lemma AddRecords_all_legal (GetType : FileType) (rs : list Record_) :
  forall me : Files.HEXFile,
    Forall (fun r => validate r GetType = true) rs ->
    Files.AddRecords GetType me rs
    = (Files.mkHEXFile (Files.recordIndex me) (Files.records me ++ rs), None).
Proof.
  induction rs as [|r rs IH]; intros me Hall; cbn [Files.AddRecords].
  - rewrite app_nil_r. destruct me; reflexivity.
  - inversion Hall as [|r' rs' Hr Hrs]; subst.
    rewrite (Add_accepts_legal _ _ _ Hr), IH by exact Hrs.
    cbn [Files.recordIndex Files.records]. rewrite <- app_assoc. reflexivity.
Qed.

(** X7: [AddRecords] appends the records in order up to the first one
    whose kind is illegal for the file, stops there and returns the error
    naming that kind and the file type; when every record is legal it
    appends them all and returns no error.  The cursor is never moved. *)
Theorem AddRecords_stops_at_first_illegal_record
    (GetType : FileType) (me : Files.HEXFile) (pre post : list Record_)
    (bad : Record_) :
  Forall (fun r => validate r GetType = true) pre ->
  validate bad GetType = false ->
  Files.AddRecords GetType me pre
  = (Files.mkHEXFile (Files.recordIndex me) (Files.records me ++ pre), None)
  /\ Files.AddRecords GetType me (pre ++ bad :: post)
     = (Files.mkHEXFile (Files.recordIndex me) (Files.records me ++ pre),
        Some (mkInvalidRecordTypeError (Type_ bad) GetType)).
Proof.
  intros Hpre Hbad. split; [apply AddRecords_all_legal; exact Hpre|].
  revert me. induction pre as [|r pre IH]; intros me; cbn [app Files.AddRecords].
  - unfold Files.Add. rewrite Hbad. cbn [negb]. rewrite app_nil_r.
    destruct me; reflexivity.
  - inversion Hpre as [|r' rs' Hr Hrs]; subst.
    rewrite (Add_accepts_legal _ _ _ Hr), (IH Hrs).
    cbn [Files.recordIndex Files.records]. rewrite <- app_assoc. reflexivity.
Qed.

Lemma AddRecords_stops_at_first_illegal_record_witness :
  let d := mkRecord RecordData 0 [xaa] in
  let s := mkRecord RecordExtSegment 0 [x10; x00] in
  Files.AddRecords I32HEX Files.NewHEXFile [d]
  = (Files.mkHEXFile (-1) [d], None)
  /\ Files.AddRecords I32HEX Files.NewHEXFile ([d] ++ s :: [d])
     = (Files.mkHEXFile (-1) [d], Some (mkInvalidRecordTypeError RecordExtSegment I32HEX)).
Proof.
  intros d s.
  apply (AddRecords_stops_at_first_illegal_record I32HEX Files.NewHEXFile [d] [d] s).
  - repeat constructor.
  - reflexivity.
Defined.

(** X8: the cursor invariant.  The constructor gives a cursor between -1
    and the last index; [Reset], [Add] and [ReadNext] keep it there, and
    under it [ReadNext] never indexes out of range: it returns, leaves the
    records as they are, and moves the cursor by one exactly when it
    reports a record. *)
Theorem container_cursor_stays_in_range
    (GetType : FileType) (me : Files.HEXFile) (r : Record_) :
  cursorInRange Files.NewHEXFile
  /\ cursorInRange (Files.Reset me)
  /\ (cursorInRange me ->
      cursorInRange (fst (Files.Add GetType me r))
      /\ exists (out : Record_) (more : bool) (me' : Files.HEXFile),
          Files.ReadNext me = Some (out, more, me')
          /\ cursorInRange me'
          /\ Files.records me' = Files.records me
          /\ Files.recordIndex me'
             = Files.recordIndex me + (if more then 1 else 0)).
Proof.
  unfold cursorInRange. split; [cbn; lia|]. split.
  - cbn [Files.Reset Files.recordIndex Files.records].
    pose proof (len_nonneg (Files.records me)). lia.
  - intros Hin. split.
    + unfold Files.Add. destruct (negb (validate r GetType)); cbn [fst]; [exact Hin|].
      cbn [Files.recordIndex Files.records]. rewrite len_app.
      change (len [r]) with 1. lia.
    + unfold Files.ReadNext.
      destruct (Files.recordIndex me + 1 >=? len (Files.records me)) eqn:E.
      * exists emptyRecord, false, me. repeat split; try lia.
      * rewrite Z.geb_leb in E. apply Z.leb_gt in E.
        cbn [Files.recordIndex Files.records].
        destruct (index (Files.records me) (Files.recordIndex me + 1)) as [out|] eqn:Ei.
        -- exists out, true, (Files.mkHEXFile (Files.recordIndex me + 1) (Files.records me)).
           cbn [Files.recordIndex Files.records]. repeat split; lia.
        -- exfalso. unfold index in Ei.
           replace ((0 <=? Files.recordIndex me + 1)
                    && (Files.recordIndex me + 1 <? len (Files.records me)))
             with true in Ei
             by (symmetry; apply andb_true_iff; split;
                 [apply Z.leb_le | apply Z.ltb_lt]; lia).
           apply nth_error_None in Ei. unfold len in E. lia.
Qed.

Lemma container_cursor_stays_in_range_witness :
  let me := Files.mkHEXFile 0 [mkRecord RecordData 0 [xaa]; mkRecord RecordEOF 0 []] in
  cursorInRange (fst (Files.Add I8HEX me emptyRecord))
  /\ exists (out : Record_) (more : bool) (me' : Files.HEXFile),
      Files.ReadNext me = Some (out, more, me')
      /\ cursorInRange me'
      /\ Files.records me' = Files.records me
      /\ Files.recordIndex me' = Files.recordIndex me + (if more then 1 else 0).
Proof.
  intros me.
  apply (proj2 (proj2 (container_cursor_stays_in_range I8HEX me emptyRecord))).
  unfold cursorInRange. vm_compute. split; discriminate.
Defined.

(** X9: reading resumes after an append.  When the cursor is on the last
    record, [ReadNext] reports no record and stays; once a legal record
    has been added, the next [ReadNext] returns that record. *)
Theorem ReadNext_resumes_after_Add
    (GetType : FileType) (me : Files.HEXFile) (r : Record_) :
  -1 <= Files.recordIndex me ->
  Files.recordIndex me + 1 = len (Files.records me) ->
  validate r GetType = true ->
  Files.ReadNext me = Some (emptyRecord, false, me)
  /\ Files.ReadNext (fst (Files.Add GetType me r))
     = Some (r, true,
             Files.mkHEXFile (Files.recordIndex me + 1) (Files.records me ++ [r])).
Proof.
  intros Hlow Hlast Hvalid. split; [apply ReadNext_exhausted; lia|].
  rewrite (Add_accepts_legal _ _ _ Hvalid). cbn [fst].
  replace (Files.recordIndex me) with (Z.of_nat (List.length (Files.records me)) - 1)
    by (unfold len in Hlast; lia).
  rewrite (ReadNext_advances (Files.records me ++ [r]) (List.length (Files.records me)) r).
  - do 3 f_equal. lia.
  - rewrite nth_error_app2 by lia. rewrite Nat.sub_diag. reflexivity.
Qed.

Lemma ReadNext_resumes_after_Add_witness :
  let me := Files.mkHEXFile 0 [mkRecord RecordData 0 [xaa]] in
  let r := mkRecord RecordEOF 0 [] in
  Files.ReadNext me = Some (emptyRecord, false, me)
  /\ Files.ReadNext (fst (Files.Add I8HEX me r))
     = Some (r, true,
             Files.mkHEXFile (Files.recordIndex me + 1) (Files.records me ++ [r])).
Proof.
  intros me r. apply (ReadNext_resumes_after_Add I8HEX me r).
  - vm_compute. discriminate.
  - reflexivity.
  - reflexivity.
Defined.

(** ** The [HexFile] draft *)

Lemma terminatorOnlyLast_snoc (records : list Record_) (r : Record_) :
  terminatorOnlyLast records ->
  HexFile.lastIsEOF records = false ->
  terminatorOnlyLast (records ++ [r]).
Proof.
  unfold terminatorOnlyLast. intros Hinv Hlast. rewrite removelast_last.
  destruct records as [|r0 records]; [constructor|].
  destruct (@exists_last _ (r0 :: records)) as (front & x & Heq); [discriminate|].
  rewrite Heq in *. rewrite removelast_last in Hinv. rewrite lastIsEOF_snoc in Hlast.
  apply Forall_app. split; [exact Hinv|]. constructor; [|constructor].
  intros Hx. rewrite Hx in Hlast. discriminate Hlast.
Qed.

(** What the loop of [ReadFrom] has done when it ends normally: one legal
    record appended per token, none after an EndOfFile record. *)
Lemma readLoop_Ok (hexType : byte) (tokens : list (list byte)) :
  forall (records records' : list Record_) (lineNumber : Z),
    HexFile.readLoop hexType tokens records lineNumber = Ok records' ->
    exists new : list Record_,
      records' = records ++ new
      /\ List.length new = List.length tokens
      /\ Forall (fun r => HexFile.validateHEXRecord (Some r) hexType = true) new
      /\ (terminatorOnlyLast records -> terminatorOnlyLast records').
Proof.
  induction tokens as [|t tokens IH]; intros records records' n H.
  - cbn [HexFile.readLoop] in H. injection H as <-. exists [].
    rewrite app_nil_r. repeat split; auto.
  - destruct (HexFile.read t) as [r|e|] eqn:E.
    + rewrite (readLoop_step _ _ _ _ _ _ E) in H.
      destruct (HexFile.lastIsEOF records) eqn:Hlast; [discriminate|].
      destruct (HexFile.validateHEXRecord (Some r) hexType) eqn:Hval;
        cbn [negb] in H; [|discriminate].
      destruct (IH _ _ _ H) as (new & -> & Hlen & Hall & Hinv).
      exists (r :: new). rewrite <- app_assoc. cbn [app List.length].
      repeat split; auto.
      intros Hrec. rewrite <- app_assoc in Hinv. apply Hinv.
      apply terminatorOnlyLast_snoc; assumption.
    + cbn [HexFile.readLoop] in H. rewrite E in H.
      destruct e; try discriminate. exfalso. exact (read_never_EOF t E).
    + cbn [HexFile.readLoop] in H. rewrite E in H. discriminate.
Qed.

(** X10: what a successful [ReadFrom] leaves in the file.  The file type
    is kept and the cursor is reset; there is one record per line of the
    input, each legal for the file type; the last record is an EndOfFile
    record and no record before it is. *)
Theorem ReadFrom_success_invariants
    (me me' : HexFile.HexFile) (reader : list byte) :
  HexFile.ReadFrom me reader = Ok me' ->
  HexFile.Type_ me' = HexFile.Type_ me
  /\ HexFile.recordIndex me' = -1
  /\ List.length (HexFile.records me')
     = List.length (bufio_ScanLines (S (List.length reader)) reader)
  /\ Forall (fun r => HexFile.validateHEXRecord (Some r) (HexFile.Type_ me) = true)
       (HexFile.records me')
  /\ terminatorOnlyLast (HexFile.records me')
  /\ exists (front : list Record_) (eof : Record_),
      HexFile.records me' = front ++ [eof]
      /\ Type_ eof = HexFile.RecordTypeEndOfFile.
Proof.
  unfold HexFile.ReadFrom. intros H.
  destruct (HexFile.readLoop _ _ _ _) as [records| |] eqn:E; cbn [bind] in H;
    try discriminate H.
  destruct (len records =? 0); cbn [orb] in H; [discriminate H|].
  destruct (HexFile.lastIsEOF records) eqn:Hlast; cbn [negb] in H; [|discriminate H].
  injection H as <-. cbn [HexFile.Reset HexFile.Type_ HexFile.records HexFile.recordIndex].
  destruct (readLoop_Ok _ _ _ _ _ E) as (new & Hnew & Hlen & Hall & Hinv).
  cbn [app] in Hnew. subst new.
  repeat split; auto.
  - apply Hinv. constructor.
  - exact (lastIsEOF_true records Hlast).
Qed.

Lemma ReadFrom_success_invariants_witness :
  terminatorOnlyLast [mkRecord x00 16 [xaa]; mkRecord x01 0 []].
Proof.
  exact (proj1 (proj2 (proj2 (proj2 (proj2
    (ReadFrom_success_invariants I8HEXHexFile
       (HexFile.mkHexFile HexFile.HexFileTypeI8HEX
          [mkRecord x00 16 [xaa]; mkRecord x01 0 []] (-1))
       (list_byte_of_string ":01001000AA56" ++ ["010"%byte]
        ++ list_byte_of_string ":00000001FF" ++ ["010"%byte])
       ltac:(vm_compute; reflexivity))))))).
Defined.

(** X11: [AddRecord] of the [HexFile] draft keeps the sequence well
    terminated.  It refuses a nil record, a record of a kind illegal for
    the file and any record once the last one is an EndOfFile record,
    leaving the file as it was; otherwise it appends the record; in every
    case a sequence with no EndOfFile record before its last element stays
    one. *)
Theorem AddRecord_keeps_terminator_last
    (me : HexFile.HexFile) (record : option Record_) :
  (forall e, snd (HexFile.AddRecord me record) = Some e ->
             fst (HexFile.AddRecord me record) = me)
  /\ (snd (HexFile.AddRecord me record) = None ->
      exists r : Record_,
        record = Some r
        /\ HexFile.validateHEXRecord (Some r) (HexFile.Type_ me) = true
        /\ HexFile.lastIsEOF (HexFile.records me) = false
        /\ fst (HexFile.AddRecord me record)
           = HexFile.mkHexFile (HexFile.Type_ me) (HexFile.records me ++ [r])
               (HexFile.recordIndex me))
  /\ (terminatorOnlyLast (HexFile.records me) ->
      terminatorOnlyLast (HexFile.records (fst (HexFile.AddRecord me record)))).
Proof.
  unfold HexFile.AddRecord.
  destruct (HexFile.validateHEXRecord record (HexFile.Type_ me)) eqn:Hval; cbn [negb].
  - destruct (HexFile.lastIsEOF (HexFile.records me)) eqn:Hlast.
    + cbn [fst snd]. repeat split; auto. discriminate.
    + destruct record as [r|]; cbn [fst snd].
      * split; [discriminate|]. split.
        -- intros _. exists r. auto.
        -- intros Hinv. cbn [HexFile.records].
           apply terminatorOnlyLast_snoc; assumption.
      * repeat split; auto. discriminate.
  - cbn [fst snd]. repeat split; auto. discriminate.
Qed.

Lemma AddRecord_keeps_terminator_last_witness :
  terminatorOnlyLast
    (HexFile.records
       (fst (HexFile.AddRecord
               (HexFile.mkHexFile HexFile.HexFileTypeI8HEX [mkRecord x01 0 []] (-1))
               (Some (mkRecord x00 0 [xaa]))))).
Proof.
  apply (proj2 (proj2 (AddRecord_keeps_terminator_last
                         (HexFile.mkHexFile HexFile.HexFileTypeI8HEX [mkRecord x01 0 []] (-1))
                         (Some (mkRecord x00 0 [xaa]))))).
  unfold terminatorOnlyLast. cbn. constructor.
Defined.

(** X12: the two legality checks of the repository differ in two places.
    [validateHEXRecord] of the [HexFile] draft agrees with [validate] for
    the three file types, except that it refuses the StartSegmentAddress
    kind under I16HEX; for any other file type it refuses every record,
    where [validate] still accepts Data and EndOfFile. *)
Theorem validateHEXRecord_against_validate (r : Record_) (hexType : byte) :
  HexFile.validateHEXRecord (Some r) hexType
  = (Byte.eqb hexType I8HEX || Byte.eqb hexType I16HEX || Byte.eqb hexType I32HEX)
    && validate r hexType
    && negb (Byte.eqb (Type_ r) RecordStartSegment && Byte.eqb hexType I16HEX).
Proof.
  unfold HexFile.validateHEXRecord, validate.
  change HexFile.HexFileTypeI8HEX with I8HEX.
  change HexFile.HexFileTypeI16HEX with I16HEX.
  change HexFile.HexFileTypeI32HEX with I32HEX.
  destruct (Byte.eqb hexType I8HEX) eqn:E8;
    [apply Byte.byte_dec_bl in E8; subst hexType; destruct (Type_ r); reflexivity|].
  destruct (Byte.eqb hexType I16HEX) eqn:E16;
    [apply Byte.byte_dec_bl in E16; subst hexType; destruct (Type_ r); reflexivity|].
  destruct (Byte.eqb hexType I32HEX) eqn:E32; destruct (Type_ r); reflexivity.
Qed.

(** ** The streaming writer, continued *)



Lemma segment_extension_is_positive (recordCount : Z) :
  0 < recordCount < writerMaximumI16HEXRecords ->
  recordCount mod 256 = 0 ->
  addressExtensionOf I16HEX recordCount (uint16 (Z.land recordCount 0xFF)) > 0.
Proof.
  unfold writerMaximumI16HEXRecords. intros Hrc Hmod. unfold addressExtensionOf.
  change 0xFF with (Z.ones 8). rewrite Z.land_ones by lia.
  change (2 ^ 8) with 256. rewrite Hmod. change (uint16 0 =? 0) with true.
  replace (recordCount >? 0) with true
    by (symmetry; rewrite Z.gtb_ltb; apply Z.ltb_lt; lia).
  change (Byte.eqb I16HEX I32HEX) with false. change (Byte.eqb I16HEX I16HEX) with true.
  cbv beta iota delta [andb]. unfold uint16. change (2 ^ 16) with 65536.
  rewrite Z.quot_div_nonneg by lia.
  Z.div_mod_to_equations. lia.
Qed.

(** X14: an I16HEX writer panics at every 256th record.  When the file
    type is I16HEX and the record count is a nonzero multiple of 256 below
    the record limit, [writeDataRecord] fills the extension payload into a
    slice of length 0 and does not return. *)
Theorem writeDataRecord_panics_for_I16HEX (me : FileWriter) (data : list byte) :
  fileType me = I16HEX ->
  0 < recordCount me < writerMaximumI16HEXRecords ->
  recordCount me mod 256 = 0 ->
  writeDataRecord me data = None.
Proof.
  intros Hft Hrc Hmod. unfold writeDataRecord. rewrite Hft.
  change (Byte.eqb I16HEX I8HEX) with false.
  change (Byte.eqb I16HEX I32HEX) with false.
  change (Byte.eqb I16HEX I16HEX) with true.
  replace (recordCount me >=? writerMaximumI16HEXRecords) with false
    by (symmetry; rewrite Z.geb_leb; apply Z.leb_gt; lia).
  cbv beta iota delta [andb orb].
  pose proof (segment_extension_is_positive _ Hrc Hmod) as Hext.
  destruct (addressExtensionOf I16HEX _ _ >? 0) eqn:E.
  - rewrite make_0. cbv beta iota. rewrite PutUint16_empty. reflexivity.
  - rewrite Z.gtb_ltb in E. apply Z.ltb_ge in E. lia.
Qed.

Lemma writeDataRecord_panics_for_I16HEX_witness :
  writeDataRecord (mkFileWriter 2 512 [x01; x02] 0 I16HEX memorySink false) [x01; x02]
  = None.
Proof.
  apply (writeDataRecord_panics_for_I16HEX
           (mkFileWriter 2 512 [x01; x02] 0 I16HEX memorySink false) [x01; x02]).
  - reflexivity.
  - vm_compute. split; reflexivity.
  - reflexivity.
Defined.

Lemma Close_sets_closed (me me' : FileWriter) (e : option WriterError) :
  Close me = Some (me', e) -> closed me' = true.
Proof.
  unfold Close. destruct (closed me) eqn:Hcl.
  - intros H. injection H as <- _. exact Hcl.
  - destruct (bufferIndex (set_closed me true) >? 0).
    + destruct (zeroLoop _ _ _) as [buf|]; [|discriminate].
      destruct (writeDataRecord _ _) as [[[me3 n] err]|] eqn:E; [|discriminate].
      apply writeDataRecord_returns in E.
      destruct E as [(-> & -> & _) | (-> & _ & -> & _)];
        intros H; injection H as <- _; try reflexivity.
      unfold closeSink. destruct (isCloser _); reflexivity.
    + intros H. injection H as <- _. unfold closeSink.
      destruct (isCloser _); reflexivity.
Qed.

(** X15: a closed writer stays closed and inert.  After any call of
    [Close] that returns, the writer is marked closed; a further [Close]
    returns no error and changes nothing, and a further [Write] returns
    the closed-writer error with 0 bytes and changes nothing. *)
Theorem closed_writer_is_inert
    (me me' : FileWriter) (e : option WriterError) (p : list byte) :
  Close me = Some (me', e) ->
  closed me' = true
  /\ Close me' = Some (me', None)
  /\ Write me' p = Some (me', 0, Some ErrClosed).
Proof.
  intros H. pose proof (Close_sets_closed _ _ _ H) as Hcl.
  unfold Close, Write. rewrite Hcl. auto.
Qed.

Lemma closed_writer_is_inert_witness :
  let me := mkFileWriter 2 0 [x01; x00] 1 I32HEX memorySink false in
  exists me' : FileWriter,
    Close me = Some (me', None)
    /\ Write me' [x05] = Some (me', 0, Some ErrClosed).
Proof.
  intros me. eexists. split; [vm_compute; reflexivity|].
  refine (proj2 (proj2 (closed_writer_is_inert me _ None [x05] _))).
  vm_compute. reflexivity.
Defined.



Lemma plain_extension_is_zero (fileType : FileType) (recordCount address : Z) :
  fileType <> I16HEX -> addressExtensionOf fileType recordCount address = 0.
Proof.
  intros Hft. unfold addressExtensionOf.
  destruct (Byte.eqb fileType I32HEX) eqn:E32.
  - apply Byte.byte_dec_bl in E32. subst fileType.
    pose proof (linear_extension_is_zero recordCount address) as H.
    unfold addressExtensionOf in H. change (Byte.eqb I32HEX I32HEX) with true in H.
    exact H.
  - destruct (Byte.eqb fileType I16HEX) eqn:E16.
    + apply Byte.byte_dec_bl in E16. contradiction.
    + destruct (_ && _); reflexivity.
Qed.

Lemma plainLimit_bound (fileType : FileType) : plainLimit fileType <= 2 ^ 62.
Proof.
  unfold plainLimit, writerMaximumI8HEXRecords, writerMaximumI32HEXRecords.
  destruct (Byte.eqb fileType I8HEX); [lia|].
  destruct (Byte.eqb fileType I32HEX); lia.
Qed.

(** Below the record limit, a writer whose file type has no extension
    records writes the Data record and counts it. *)
Lemma writeDataRecord_plain (me : FileWriter) (data : list byte) :
  fileType me <> I16HEX ->
  0 <= recordCount me < plainLimit (fileType me) ->
  writeDataRecord me data
  = Some (set_writer (set_recordCount me (recordCount me + 1))
            (fst (write (dataRecordAt (recordCount me) data) (writer me))),
          len (recordLine (dataRecordAt (recordCount me) data)), None).
Proof.
  intros Hft Hrc. pose proof (plainLimit_bound (fileType me)) as Hb.
  unfold writeDataRecord. rewrite plain_extension_is_zero by exact Hft.
  replace ((Byte.eqb (fileType me) I8HEX
            && (recordCount me >=? writerMaximumI8HEXRecords))
           || (Byte.eqb (fileType me) I16HEX
               && (recordCount me >=? writerMaximumI16HEXRecords))
           || (Byte.eqb (fileType me) I32HEX
               && (recordCount me >=? writerMaximumI32HEXRecords))) with false.
  - change (0 >? 0) with false.
    cbv beta iota zeta delta [write Writer_Write fst].
    rewrite int64_small by lia. rewrite Z.add_0_r.
    destruct me; reflexivity.
  - symmetry. unfold plainLimit in Hrc.
    rewrite !orb_false_iff, !andb_false_iff. repeat split.
    + destruct (Byte.eqb (fileType me) I8HEX); [right|left; reflexivity].
      rewrite Z.geb_leb. apply Z.leb_gt. lia.
    + left. destruct (Byte.eqb (fileType me) I16HEX) eqn:E16; [|reflexivity].
      apply Byte.byte_dec_bl in E16. contradiction.
    + destruct (Byte.eqb (fileType me) I32HEX) eqn:E32; [right|left; reflexivity].
      destruct (Byte.eqb (fileType me) I8HEX) eqn:E8.
      * apply Byte.byte_dec_bl in E8. apply Byte.byte_dec_bl in E32.
        rewrite E8 in E32. discriminate E32.
      * rewrite Z.geb_leb. apply Z.leb_gt. lia.
Qed.

Lemma store_in_range {A : Type} (s : list A) (i : Z) (v : A) :
  0 <= i < len s ->
  store s i v = Some (firstn (Z.to_nat i) s ++ v :: skipn (S (Z.to_nat i)) s).
Proof.
  intros Hi. unfold store.
  replace ((0 <=? i) && (i <? len s)) with true; [reflexivity|].
  symmetry. apply andb_true_iff. split; [apply Z.leb_le | apply Z.ltb_lt]; lia.
Qed.

Lemma len_store {A : Type} (s : list A) (i : Z) (v : A) :
  0 <= i < len s ->
  len (firstn (Z.to_nat i) s ++ v :: skipn (S (Z.to_nat i)) s) = len s.
Proof.
  intros Hi. unfold len in *.
  rewrite List.length_app, length_firstn. cbn [List.length]. rewrite length_skipn. lia.
Qed.

Lemma firstn_store {A : Type} (s : list A) (i : Z) (v : A) :
  0 <= i < len s ->
  firstn (Z.to_nat (i + 1)) (firstn (Z.to_nat i) s ++ v :: skipn (S (Z.to_nat i)) s)
  = firstn (Z.to_nat i) s ++ [v].
Proof.
  intros Hi. unfold len in Hi.
  assert (Hf : List.length (firstn (Z.to_nat i) s) = Z.to_nat i)
    by (rewrite length_firstn; lia).
  rewrite firstn_app, Hf.
  replace (Z.to_nat (i + 1) - Z.to_nat i)%nat with 1%nat by lia.
  rewrite firstn_all2 by lia. reflexivity.
Qed.

Lemma skipn_store {A : Type} (s : list A) (i : Z) (v : A) (j : nat) :
  0 <= i < len s -> (Z.to_nat i < j)%nat ->
  skipn j (firstn (Z.to_nat i) s ++ v :: skipn (S (Z.to_nat i)) s) = skipn j s.
Proof.
  intros Hi Hj. unfold len in Hi.
  assert (Hf : List.length (firstn (Z.to_nat i) s) = Z.to_nat i)
    by (rewrite length_firstn; lia).
  rewrite skipn_app, Hf. rewrite skipn_all2 by lia. cbn [app].
  destruct (j - Z.to_nat i)%nat as [|m] eqn:Em; [lia|].
  change (skipn (S m) (v :: skipn (S (Z.to_nat i)) s))
    with (skipn m (skipn (S (Z.to_nat i)) s)).
  rewrite skipn_skipn. f_equal. lia.
Qed.

Lemma totalLen_cons (l : list byte) (ls : list (list byte)) :
  totalLen (l :: ls) = len l + totalLen ls.
Proof. reflexivity. Qed.

(** The loop of [Write] on a writer without extension records, below the
    record limit: the pending bytes and the input leave as records of
    [k] bytes in order, the bytes past the last full record stay pending. *)
Lemma writeLoop_chunks (p : list byte) :
  forall (k rc : Z) (buf : list byte) (idx : Z) (ft : FileType) (w : Writer)
         (cl : bool) (sum : Z),
    len buf = k -> 0 <= idx < k -> 0 <= rc -> ft <> I16HEX ->
    rc + len p <= plainLimit ft ->
    exists (chunks : list (list byte)) (rest buf' : list byte),
      writeLoop (mkFileWriter k rc buf idx ft w cl) p sum
      = Some (mkFileWriter k (rc + len chunks) buf' (len rest) ft
                (mkWriter (written w ++ map recordLine (dataRecordsFrom rc chunks))
                   (isCloser w) (sinkClosed w)) cl,
              sum + totalLen (map recordLine (dataRecordsFrom rc chunks)), None)
      /\ firstn (Z.to_nat idx) buf ++ p = List.concat chunks ++ rest
      /\ Forall (fun c => len c = k) chunks
      /\ len rest < k
      /\ len buf' = k
      /\ firstn (Z.to_nat (len rest)) buf' = rest
      /\ (chunks = [] ->
          skipn (Z.to_nat (len rest)) buf' = skipn (Z.to_nat (len rest)) buf).
Proof.
  induction p as [|b p IH]; intros k rc buf idx ft w cl sum Hbuf Hidx Hrc Hft Hlim.
  - exists [], (firstn (Z.to_nat idx) buf), buf.
    assert (Hl : len (firstn (Z.to_nat idx) buf) = idx)
      by (unfold len in *; rewrite length_firstn; lia).
    cbn [writeLoop dataRecordsFrom map List.concat app]. rewrite Hl.
    change (len (@nil (list byte))) with 0. change (totalLen []) with 0.
    rewrite !Z.add_0_r, !app_nil_r. destruct w.
    repeat split; auto; lia.
  - assert (Hlen : len (b :: p) = 1 + len p) by (unfold len; cbn [List.length]; lia).
    rewrite Hlen in Hlim. pose proof (len_nonneg p) as Hp.
    cbn [writeLoop buffer bufferIndex].
    rewrite store_in_range by lia. cbv beta iota.
    set (buf1 := firstn (Z.to_nat idx) buf ++ b :: skipn (S (Z.to_nat idx)) buf).
    assert (Hbuf1 : len buf1 = k) by (unfold buf1; rewrite len_store; lia).
    cbv beta iota zeta delta [set_buffer set_bufferIndex recordSize recordCount buffer
                               bufferIndex fileType writer closed].
    destruct (idx + 1 >=? k) eqn:Efull.
    + rewrite Z.geb_leb in Efull. apply Z.leb_le in Efull.
      assert (Hfull : buf1 = firstn (Z.to_nat idx) buf ++ [b]).
      { unfold buf1. rewrite skipn_all2 by (unfold len in Hbuf; lia). reflexivity. }
      rewrite writeDataRecord_plain;
        cbv beta iota delta [fileType recordCount]; [|exact Hft|lia].
      cbv beta iota zeta delta [set_writer set_recordCount recordSize recordCount buffer
                                 bufferIndex fileType writer closed write Writer_Write
                                 fst].
      destruct (IH k (rc + 1) buf1 0 ft
                  (mkWriter (written w ++ [recordLine (dataRecordAt rc buf1)])
                     (isCloser w) (sinkClosed w)) cl
                  (sum + len (recordLine (dataRecordAt rc buf1))))
        as (chunks & rest & buf' & Heq & Hcat & Hall & Hrest & Hb' & Hfirst & _);
        try lia; try assumption.
      exists (buf1 :: chunks), rest, buf'.
      rewrite Heq. cbn [written isCloser sinkClosed dataRecordsFrom map List.concat].
      rewrite totalLen_cons, <- !app_assoc. cbn [app].
      replace (len (buf1 :: chunks)) with (1 + len chunks)
        by (unfold len; cbn [List.length]; lia).
      replace (rc + 1 + len chunks) with (rc + (1 + len chunks)) by lia.
      replace (sum + len (recordLine (dataRecordAt rc buf1))
               + totalLen (map recordLine (dataRecordsFrom (rc + 1) chunks)))
        with (sum + (len (recordLine (dataRecordAt rc buf1))
                     + totalLen (map recordLine (dataRecordsFrom (rc + 1) chunks))))
        by lia.
      split; [reflexivity|]. cbn [firstn app] in Hcat.
      split; [rewrite <- Hcat, Hfull, <- app_assoc; reflexivity|].
      split; [constructor; assumption|].
      repeat split; auto. discriminate.
    + rewrite Z.geb_leb in Efull. apply Z.leb_gt in Efull.
      destruct (IH k rc buf1 (idx + 1) ft w cl sum)
        as (chunks & rest & buf' & Heq & Hcat & Hall & Hrest & Hb' & Hfirst & Htail);
        try lia; try assumption.
      exists chunks, rest, buf'. rewrite Heq.
      unfold buf1 in Hcat. rewrite firstn_store in Hcat by lia.
      rewrite <- app_assoc in Hcat. cbn [app] in Hcat.
      repeat split; auto.
      intros Hnil. rewrite (Htail Hnil). subst chunks. cbn [List.concat app] in Hcat.
      unfold buf1. apply skipn_store; [lia|].
      rewrite <- Hcat. unfold len. rewrite List.length_app, length_firstn.
      cbn [List.length]. unfold len in Hbuf. lia.
Qed.

(** X17: [Write] cuts its input into records.  On a well-formed open
    writer whose file type is not I16HEX, with room below the record
    limit, [Write] returns no error; the pending bytes followed by the
    input are the payloads of the Data records written, in order and each
    of [recordSize] bytes, followed by fewer than [recordSize] bytes that
    stay pending in the buffer; the count returned is the number of bytes
    sent to the sink. *)
Theorem Write_cuts_the_input_into_records (me : FileWriter) (p : list byte) :
  wellFormedWriter me ->
  closed me = false ->
  fileType me <> I16HEX ->
  recordCount me + len p <= plainLimit (fileType me) ->
  exists (chunks : list (list byte)) (rest : list byte) (me' : FileWriter) (n : Z),
    Write me p = Some (me', n, None)
    /\ firstn (Z.to_nat (bufferIndex me)) (buffer me) ++ p = List.concat chunks ++ rest
    /\ Forall (fun c => len c = recordSize me) chunks
    /\ len rest < recordSize me
    /\ written (writer me')
       = written (writer me) ++ map recordLine (dataRecordsFrom (recordCount me) chunks)
    /\ n = totalLen (map recordLine (dataRecordsFrom (recordCount me) chunks))
    /\ recordCount me' = recordCount me + len chunks
    /\ bufferIndex me' = len rest
    /\ firstn (Z.to_nat (len rest)) (buffer me') = rest
    /\ wellFormedWriter me'.
Proof.
  destruct me as [k rc buf idx ft w cl]. unfold wellFormedWriter.
  cbn [recordSize recordCount buffer bufferIndex fileType writer closed].
  intros (Hbuf & Hidx & Hrc) Hcl Hft Hlim. subst cl.
  destruct (writeLoop_chunks p k rc buf idx ft w false 0 Hbuf Hidx Hrc Hft Hlim)
    as (chunks & rest & buf' & Heq & Hcat & Hall & Hrest & Hb' & Hfirst & _).
  eexists chunks, rest, _, _. unfold Write. cbn [closed]. rewrite Heq.
  split; [reflexivity|].
  cbn [recordSize recordCount buffer bufferIndex fileType writer closed written].
  pose proof (len_nonneg rest). pose proof (len_nonneg chunks).
  repeat split; auto; lia.
Qed.

Lemma Write_cuts_the_input_into_records_witness :
  let me := mkFileWriter 2 0 [x00; x00] 0 I32HEX memorySink false in
  exists (chunks : list (list byte)) (rest : list byte) (me' : FileWriter) (n : Z),
    Write me [x01; x02; x03] = Some (me', n, None)
    /\ firstn (Z.to_nat (bufferIndex me)) (buffer me) ++ [x01; x02; x03]
       = List.concat chunks ++ rest
    /\ Forall (fun c => len c = recordSize me) chunks
    /\ len rest < recordSize me
    /\ written (writer me')
       = written (writer me) ++ map recordLine (dataRecordsFrom (recordCount me) chunks)
    /\ n = totalLen (map recordLine (dataRecordsFrom (recordCount me) chunks))
    /\ recordCount me' = recordCount me + len chunks
    /\ bufferIndex me' = len rest
    /\ firstn (Z.to_nat (len rest)) (buffer me') = rest
    /\ wellFormedWriter me'.
Proof.
  intros me. apply (Write_cuts_the_input_into_records me [x01; x02; x03]).
  - unfold wellFormedWriter. vm_compute.
    repeat split; first [reflexivity | discriminate].
  - reflexivity.
  - discriminate.
  - vm_compute. discriminate.
Defined.

Lemma NewFileWriterType_Ok (w : Writer) (k : Z) (ft : FileType) (me : FileWriter) :
  NewFileWriterType w k ft = Ok me ->
  1 <= k <= 255 /\ me = mkFileWriter k 0 (repeat x00 (Z.to_nat k)) 0 ft w false.
Proof.
  unfold NewFileWriterType, recordMaximumDataSize.
  destruct (k >? 255) eqn:E1; [discriminate|].
  destruct (k <=? 0) eqn:E2; [discriminate|]. cbn [orb].
  rewrite Z.gtb_ltb in E1. apply Z.ltb_ge in E1. apply Z.leb_gt in E2.
  unfold make. replace (k <? 0) with false by (symmetry; apply Z.ltb_ge; lia).
  cbn [checked bind]. intros H. injection H as <-. split; [lia | reflexivity].
Qed.

(** X18: the constructor's bounds.  [NewFileWriterType] refuses a record
    size below 1 or above 255 with the size error; for a size in between
    it returns an open, well-formed writer with a zeroed buffer of that
    size, no record counted and nothing pending. *)
Theorem NewFileWriterType_bounds (w : Writer) (k : Z) (ft : FileType) :
  (k <= 0 \/ 255 < k -> NewFileWriterType w k ft = Err (ErrRecordSize k))
  /\ (1 <= k <= 255 ->
      NewFileWriterType w k ft
      = Ok (mkFileWriter k 0 (repeat x00 (Z.to_nat k)) 0 ft w false)
      /\ wellFormedWriter (mkFileWriter k 0 (repeat x00 (Z.to_nat k)) 0 ft w false)).
Proof.
  unfold NewFileWriterType, recordMaximumDataSize. split.
  - intros [H | H].
    + replace (k <=? 0) with true by (symmetry; apply Z.leb_le; lia).
      rewrite orb_true_r. reflexivity.
    + replace (k >? 255) with true
        by (symmetry; rewrite Z.gtb_ltb; apply Z.ltb_lt; lia).
      reflexivity.
  - intros H.
    replace (k >? 255) with false by (symmetry; rewrite Z.gtb_ltb; apply Z.ltb_ge; lia).
    replace (k <=? 0) with false by (symmetry; apply Z.leb_gt; lia).
    cbn [orb]. unfold make.
    replace (k <? 0) with false by (symmetry; apply Z.ltb_ge; lia).
    split; [reflexivity|]. unfold wellFormedWriter.
    cbn [recordSize recordCount buffer bufferIndex]. unfold len.
    rewrite repeat_length. lia.
Qed.

Lemma NewFileWriterType_bounds_witness :
  NewFileWriterType memorySink 256 I8HEX = Err (ErrRecordSize 256).
Proof.
  apply (proj1 (NewFileWriterType_bounds memorySink 256 I8HEX)). right. lia.
Defined.





Lemma len_concat_chunks (k : Z) (chunks : list (list byte)) :
  Forall (fun c => len c = k) chunks ->
  len (List.concat chunks) = k * len chunks.
Proof.
  induction 1 as [|c chunks Hc _ IH]; cbn [List.concat].
  - change (len (@nil byte)) with 0. change (len (@nil (list byte))) with 0. lia.
  - rewrite len_app, IH, Hc.
    replace (len (c :: chunks)) with (1 + len chunks)
      by (unfold len; cbn [List.length]; lia).
    lia.
Qed.

Lemma skipn_repeat_zero (n m : nat) :
  skipn n (repeat x00 m) = repeat x00 (m - n).
Proof.
  revert m. induction n as [|n IH]; intros [|m]; cbn [skipn repeat Nat.sub];
    try reflexivity.
  apply IH.
Qed.

Lemma dataRecordAt_0 (data : list byte) : dataRecordAt 0 data = mkRecord RecordData 0 data.
Proof. reflexivity. Qed.

(** [Close] on an open writer with pending bytes, without extension
    records and below the record limit. *)
Lemma Close_flushes (k rc : Z) (buf : list byte) (idx : Z) (ft : FileType) (w : Writer) :
  0 < idx -> ft <> I16HEX -> 0 <= rc < plainLimit ft ->
  exists me' : FileWriter,
    Close (mkFileWriter k rc buf idx ft w false) = Some (me', None)
    /\ written (writer me')
       = written w
         ++ [recordLine
               (dataRecordAt rc
                  (firstn (Z.to_nat (idx + 1)) buf
                   ++ repeat x00 (List.length buf - Z.to_nat (idx + 1))))]
    /\ sinkClosed (writer me') = isCloser w || sinkClosed w.
Proof.
  intros Hidx Hft Hrc. unfold Close.
  cbn [closed set_closed set_buffer bufferIndex buffer recordSize recordCount fileType
         writer].
  replace (idx >? 0) with true by (symmetry; rewrite Z.gtb_ltb; apply Z.ltb_lt; lia).
  rewrite zeroLoop_pads by lia.
  rewrite writeDataRecord_plain; cbn [fileType recordCount]; [|exact Hft|exact Hrc].
  eexists. split; [reflexivity|].
  cbv beta iota zeta delta [set_writer set_recordCount recordSize recordCount buffer
                             bufferIndex fileType writer closed write Writer_Write fst
                             closeSink isCloser Writer_Close written sinkClosed].
  destruct w as [wr ic sc]. destruct ic; split; reflexivity.
Qed.

(** X20: a first record shorter than the record size is padded with
    zeroes.  A writer fresh from [NewFileWriterType], for a file type
    other than I16HEX, fed fewer bytes than its record size and closed,
    has written one line: the Data record at address 0 whose payload is
    the input followed by zero bytes up to the record size; the sink is
    then closed if it can be. *)
Theorem Close_pads_a_first_short_record
    (w : Writer) (k : Z) (ft : FileType) (me : FileWriter) (p : list byte) :
  NewFileWriterType w k ft = Ok me ->
  ft <> I16HEX ->
  0 < len p < k ->
  exists (me1 me2 : FileWriter) (n : Z),
    Write me p = Some (me1, n, None)
    /\ Close me1 = Some (me2, None)
    /\ written (writer me2)
       = written w
         ++ [recordLine (mkRecord RecordData 0 (p ++ repeat x00 (Z.to_nat (k - len p))))]
    /\ sinkClosed (writer me2) = isCloser w || sinkClosed w.
Proof.
  intros Hnew Hft Hp. destruct (NewFileWriterType_Ok _ _ _ _ Hnew) as (Hk & ->).
  set (buf := repeat x00 (Z.to_nat k)).
  assert (Hbuf : len buf = k) by (unfold buf, len; rewrite repeat_length; lia).
  assert (Hlim : 0 + len p <= plainLimit ft).
  { unfold plainLimit, writerMaximumI8HEXRecords, writerMaximumI32HEXRecords.
    destruct (Byte.eqb ft I8HEX); [lia|]. destruct (Byte.eqb ft I32HEX); lia. }
  destruct (writeLoop_chunks p k 0 buf 0 ft w false 0 Hbuf ltac:(lia) ltac:(lia) Hft Hlim)
    as (chunks & rest & buf' & Heq & Hcat & Hall & Hrest & Hb' & Hfirst & Htail).
  change (firstn (Z.to_nat 0) buf ++ p) with p in Hcat.
  assert (Hnil : chunks = []).
  { destruct chunks as [|c chunks]; [reflexivity|]. exfalso.
    pose proof (Forall_inv Hall) as Hc. cbv beta in Hc.
    assert (Hl : len p = len (List.concat (c :: chunks) ++ rest)) by (rewrite <- Hcat; reflexivity).
    cbn [List.concat] in Hl. rewrite !len_app in Hl.
    pose proof (len_nonneg (List.concat chunks)). pose proof (len_nonneg rest). lia. }
  subst chunks. cbn [List.concat app] in Hcat. subst rest.
  specialize (Htail eq_refl).
  assert (Hbuf' : buf' = p ++ repeat x00 (Z.to_nat (k - len p))).
  { rewrite <- (firstn_skipn (Z.to_nat (len p)) buf'), Hfirst, Htail.
    f_equal. unfold buf. rewrite skipn_repeat_zero. f_equal. lia. }
  cbn [dataRecordsFrom map] in Heq. change (len (@nil (list byte))) with 0 in Heq.
  change (totalLen []) with 0 in Heq. rewrite app_nil_r, !Z.add_0_r in Heq.
  destruct (Close_flushes k 0 buf' (len p) ft
              (mkWriter (written w) (isCloser w) (sinkClosed w)))
    as (me2 & HClose & Hwritten & Hsink); [lia | exact Hft | |].
  { lia. }
  eexists _, me2, _. unfold Write. cbn [closed]. rewrite Heq.
  split; [reflexivity|]. split; [exact HClose|]. split; [|exact Hsink].
  rewrite Hwritten. cbn [written]. rewrite dataRecordAt_0, Hbuf'.
  assert (Hdata :
            firstn (Z.to_nat (len p + 1)) (p ++ repeat x00 (Z.to_nat (k - len p)))
            ++ repeat x00
                 (List.length (p ++ repeat x00 (Z.to_nat (k - len p)))
                  - Z.to_nat (len p + 1))
            = p ++ repeat x00 (Z.to_nat (k - len p))).
  { assert (Hlp : Z.to_nat (len p + 1) = S (List.length p)) by (unfold len; lia).
    rewrite Hlp, firstn_app, firstn_all2 by lia.
    replace (S (List.length p) - List.length p)%nat with 1%nat by lia.
    rewrite List.length_app, repeat_length.
    destruct (Z.to_nat (k - len p)) as [|m] eqn:Em; [lia|].
    cbn [repeat firstn]. rewrite <- app_assoc. cbn [app]. do 3 f_equal. lia. }
  rewrite Hdata. reflexivity.
Qed.

Lemma Close_pads_a_first_short_record_witness :
  exists (me1 me2 : FileWriter) (n : Z),
    Write (mkFileWriter 4 0 (repeat x00 (Z.to_nat 4)) 0 I32HEX memorySink false)
      [x01; x02] = Some (me1, n, None)
    /\ Close me1 = Some (me2, None)
    /\ written (writer me2)
       = written memorySink
         ++ [recordLine
               (mkRecord RecordData 0
                  ([x01; x02] ++ repeat x00 (Z.to_nat (4 - len [x01; x02]))))]
    /\ sinkClosed (writer me2) = isCloser memorySink || sinkClosed memorySink.
Proof.
  apply (Close_pads_a_first_short_record memorySink 4 I32HEX
           (mkFileWriter 4 0 (repeat x00 (Z.to_nat 4)) 0 I32HEX memorySink false)
           [x01; x02]).
  - reflexivity.
  - discriminate.
  - vm_compute. split; reflexivity.
Defined.

(** X21: an input of whole records is written as is.  A writer fresh from
    [NewFileWriterType], for a file type other than I16HEX, fed a multiple
    of its record size (within the record limit) and closed, has written
    exactly the Data records of the successive [k]-byte pieces of the
    input, numbered from 0, and nothing else: [Close] adds no record. *)
Theorem Write_then_Close_on_whole_records
    (w : Writer) (k m : Z) (ft : FileType) (me : FileWriter) (p : list byte) :
  NewFileWriterType w k ft = Ok me ->
  ft <> I16HEX ->
  len p = m * k ->
  len p <= plainLimit ft ->
  exists (chunks : list (list byte)) (me1 me2 : FileWriter) (n : Z),
    Write me p = Some (me1, n, None)
    /\ Close me1 = Some (me2, None)
    /\ p = List.concat chunks
    /\ Forall (fun c => len c = k) chunks
    /\ len chunks = m
    /\ written (writer me2) = written w ++ map recordLine (dataRecordsFrom 0 chunks)
    /\ sinkClosed (writer me2) = isCloser w || sinkClosed w.
Proof.
  intros Hnew Hft Hp Hlim. destruct (NewFileWriterType_Ok _ _ _ _ Hnew) as (Hk & ->).
  set (buf := repeat x00 (Z.to_nat k)).
  assert (Hbuf : len buf = k) by (unfold buf, len; rewrite repeat_length; lia).
  destruct (writeLoop_chunks p k 0 buf 0 ft w false 0 Hbuf ltac:(lia) ltac:(lia) Hft
              ltac:(lia))
    as (chunks & rest & buf' & Heq & Hcat & Hall & Hrest & Hb' & Hfirst & _).
  change (firstn (Z.to_nat 0) buf ++ p) with p in Hcat.
  assert (Hl : len p = k * len chunks + len rest)
    by (rewrite Hcat, len_app, (len_concat_chunks k) by exact Hall; reflexivity).
  pose proof (len_nonneg rest) as Hr0. pose proof (len_nonneg chunks) as Hc0.
  assert (Hrest0 : len rest = 0).
  { rewrite (Z.mod_unique_pos (len p) k (len chunks) (len rest)) by lia.
    rewrite Hp. apply Z.mod_mul. lia. }
  assert (Hnil : rest = []).
  { destruct rest; [reflexivity|]. unfold len in Hrest0. cbn [List.length] in Hrest0. lia. }
  subst rest. rewrite app_nil_r in Hcat.
  change (len (@nil byte)) with 0 in Heq.
  exists chunks. eexists _, _, _. unfold Write. cbn [closed]. rewrite Heq.
  split; [reflexivity|]. unfold Close.
  cbn [closed set_closed bufferIndex]. change (0 >? 0) with false. cbv iota.
  split; [reflexivity|]. split; [exact Hcat|]. split; [exact Hall|].
  split; [rewrite Hrest0 in Hl; nia|].
  unfold closeSink. cbn [writer isCloser set_writer Writer_Close written sinkClosed].
  destruct w as [wr ic sc]. destruct ic; split; reflexivity.
Qed.

Lemma Write_then_Close_on_whole_records_witness :
  exists (chunks : list (list byte)) (me1 me2 : FileWriter) (n : Z),
    Write (mkFileWriter 2 0 (repeat x00 (Z.to_nat 2)) 0 I8HEX memorySink false)
      [x01; x02; x03; x04] = Some (me1, n, None)
    /\ Close me1 = Some (me2, None)
    /\ [x01; x02; x03; x04] = List.concat chunks
    /\ Forall (fun c => len c = 2) chunks
    /\ len chunks = 2
    /\ written (writer me2)
       = written memorySink ++ map recordLine (dataRecordsFrom 0 chunks)
    /\ sinkClosed (writer me2) = isCloser memorySink || sinkClosed memorySink.
Proof.
  apply (Write_then_Close_on_whole_records memorySink 2 2 I8HEX
           (mkFileWriter 2 0 (repeat x00 (Z.to_nat 2)) 0 I8HEX memorySink false)
           [x01; x02; x03; x04]).
  - reflexivity.
  - discriminate.
  - reflexivity.
  - vm_compute. discriminate.
Defined.

(** ** The [I8HEX] file of the decoder draft *)

Lemma writeLine_recordLine (r : Record_) : I8HEXFileDraft.writeLine r = recordLine r.
Proof.
  unfold I8HEXFileDraft.writeLine, recordLine. destruct r as [t a data].
  cbn [Type_ AddressOffset Data].
  rewrite (generateChecksum_getChecksum t a data). cbn [app].
  rewrite <- !app_assoc. reflexivity.
Qed.

Lemma WriteFile_written (records : list Record_) :
  forall file : Writer,
    written (fold_left (fun w record => I8HEXFileDraft.write record w) records file)
    = written file ++ map recordLine records.
Proof.
  induction records as [|r records IH]; intros file; cbn [fold_left map].
  - rewrite app_nil_r. reflexivity.
  - rewrite IH. unfold I8HEXFileDraft.write, Writer_Write. cbn [fst written].
    rewrite writeLine_recordLine, <- app_assoc. reflexivity.
Qed.

Lemma readRecord_readable (r : Record_) (rest : list byte) :
  readableByI8HEX r -> Decoder.readRecord (recordLine r ++ rest) = Ok (r, rest).
Proof.
  intros (Hkind & Hlen & Haddr).
  change (recordLine r) with (recordLineWith r (Z_of_byte (getChecksum r))).
  rewrite readRecord_recordLineWith; try assumption; try lia.
  - replace (len (Data r) >=? 128) with false
      by (symmetry; rewrite Z.geb_leb; apply Z.leb_gt; lia).
    rewrite Z.eqb_refl. reflexivity.
  - destruct Hkind as [-> | ->]; reflexivity.
  - apply Z_of_byte_range.
Qed.

Lemma recordLine_nonempty (r : Record_) : (0 < List.length (recordLine r))%nat.
Proof.
  unfold recordLine. cbn [app List.length]. lia.
Qed.

(** Enough fuel is any fuel above the input's length. *)
Lemma newLoop_fuel (fuel : nat) :
  forall (fuel' : nat) (reader : list byte) (records : list Record_) (lineNumber : Z),
    (List.length reader < fuel)%nat -> (List.length reader < fuel')%nat ->
    I8HEXFileDraft.newLoop fuel reader records lineNumber
    = I8HEXFileDraft.newLoop fuel' reader records lineNumber.
Proof.
  induction fuel as [|fuel IH]; intros fuel' reader records n H H'; [lia|].
  destruct fuel' as [|fuel']; [lia|]. cbn [I8HEXFileDraft.newLoop].
  destruct (Decoder.readRecord reader) as [[r rest]|e|] eqn:E; try reflexivity.
  destruct (readRecord_Ok _ _ _ E) as (bytes & _ & _ & HRL & _).
  apply ReadLine_consumes in HRL.
  destruct (_ && _); [reflexivity|]. apply IH; lia.
Qed.

(** The loop of [NewI8HEX] reads the lines of readable records back, one
    record per line, and goes on with what follows them. *)
Lemma newLoop_lines (rs : list Record_) :
  forall (fuel : nat) (tail : list byte) (records : list Record_) (lineNumber : Z),
    (List.length (List.concat (map recordLine rs) ++ tail) < fuel)%nat ->
    Forall readableByI8HEX rs ->
    I8HEXFileDraft.newLoop fuel (List.concat (map recordLine rs) ++ tail)
      records lineNumber
    = I8HEXFileDraft.newLoop fuel tail (records ++ rs) (lineNumber + len rs).
Proof.
  induction rs as [|r rs IH]; intros fuel tail records n Hfuel Hall.
  - cbn [map List.concat app]. rewrite app_nil_r.
    change (len (@nil Record_)) with 0. rewrite Z.add_0_r. reflexivity.
  - inversion Hall as [|r' rs' Hr Hrs]; subst.
    cbn [map List.concat] in *. rewrite <- app_assoc in *.
    rewrite List.length_app in Hfuel.
    pose proof (recordLine_nonempty r) as Hne.
    destruct fuel as [|fuel]; [lia|].
    cbn [I8HEXFileDraft.newLoop].
    rewrite (readRecord_readable r _ Hr).
    replace (negb (Z_of_byte (Type_ r) =? Decoder.RecordTypeData)
             && negb (Z_of_byte (Type_ r) =? Decoder.RecordTypeEndOfFile)) with false
      by (destruct Hr as ([-> | ->] & _); reflexivity).
    rewrite (newLoop_fuel fuel (S fuel)) by lia.
    rewrite IH by (try exact Hrs; lia).
    rewrite <- app_assoc. cbn [app].
    replace (len (r :: rs)) with (1 + len rs) by (unfold len; cbn [List.length]; lia).
    replace (n + 1 + len rs) with (n + (1 + len rs)) by lia. reflexivity.
Qed.

(** X22: a file written by [WriteFile] is read back by [NewI8HEX].  For
    records that are Data or EndOfFile records with fewer than 128 payload
    bytes and 16-bit addresses, [NewI8HEX] on the lines [WriteFile] sends
    to the sink returns the same records in the same order, with the
    cursor on the first one; no EndOfFile record is required, and records
    after one are accepted. *)
Theorem NewI8HEX_reads_back_WriteFile (me : I8HEXFileDraft.I8HEX) :
  Forall readableByI8HEX (I8HEXFileDraft.records me) ->
  written (I8HEXFileDraft.WriteFile me memorySink)
  = map recordLine (I8HEXFileDraft.records me)
  /\ I8HEXFileDraft.NewI8HEX
       (List.concat (written (I8HEXFileDraft.WriteFile me memorySink)))
     = Ok (I8HEXFileDraft.mkI8HEX (I8HEXFileDraft.records me) 0 0).
Proof.
  intros Hall. unfold I8HEXFileDraft.WriteFile. rewrite WriteFile_written.
  cbn [written memorySink app]. split; [reflexivity|].
  unfold I8HEXFileDraft.NewI8HEX.
  set (input := List.concat (map recordLine (I8HEXFileDraft.records me))).
  replace input with (input ++ []) at 2 by apply app_nil_r. unfold input.
  rewrite newLoop_lines by (try exact Hall; rewrite app_nil_r; lia).
  cbn [I8HEXFileDraft.newLoop]. reflexivity.
Qed.

Lemma NewI8HEX_reads_back_WriteFile_witness :
  let me := I8HEXFileDraft.mkI8HEX
              [mkRecord RecordEOF 0 []; mkRecord RecordData 16 [xaa]] 0 0 in
  written (I8HEXFileDraft.WriteFile me memorySink)
  = map recordLine (I8HEXFileDraft.records me)
  /\ I8HEXFileDraft.NewI8HEX
       (List.concat (written (I8HEXFileDraft.WriteFile me memorySink)))
     = Ok (I8HEXFileDraft.mkI8HEX (I8HEXFileDraft.records me) 0 0).
Proof.
  intros me. apply (NewI8HEX_reads_back_WriteFile me).
  repeat (constructor;
          [unfold readableByI8HEX; split;
           [first [left; reflexivity | right; reflexivity]
           |split; [vm_compute; reflexivity
                   |vm_compute; split; first [discriminate | reflexivity]]]|]);
    constructor.
Defined.

(** X23: [NewI8HEX] names the line of the first record it refuses.  When
    the input holds the lines of readable records followed by the line of
    a short record of a known kind other than Data and EndOfFile,
    [NewI8HEX] fails with the invalid-kind error carrying the 1-based
    number of that line and the kind. *)
Theorem NewI8HEX_reports_the_line_of_an_illegal_kind
    (pre : list Record_) (bad : Record_) (tail : list byte) :
  Forall readableByI8HEX pre ->
  Decoder.knownRecordType (Z_of_byte (Type_ bad)) = true ->
  Type_ bad <> RecordData -> Type_ bad <> RecordEOF ->
  len (Data bad) < 128 ->
  0 <= AddressOffset bad < 65536 ->
  I8HEXFileDraft.NewI8HEX (List.concat (map recordLine pre) ++ recordLine bad ++ tail)
  = Err (I8HEXFileDraft.InvalidRecordTypeOnLine (len pre + 1) (Type_ bad)).
Proof.
  intros Hpre Hknown Hd He Hlen Haddr. unfold I8HEXFileDraft.NewI8HEX.
  rewrite newLoop_lines by (try exact Hpre; lia).
  cbn [I8HEXFileDraft.newLoop].
  change (recordLine bad) with (recordLineWith bad (Z_of_byte (getChecksum bad))).
  rewrite readRecord_recordLineWith; try assumption; try lia;
    [|apply Z_of_byte_range].
  replace (len (Data bad) >=? 128) with false
    by (symmetry; rewrite Z.geb_leb; apply Z.leb_gt; lia).
  rewrite Z.eqb_refl.
  replace (negb (Z_of_byte (Type_ bad) =? Decoder.RecordTypeData)
           && negb (Z_of_byte (Type_ bad) =? Decoder.RecordTypeEndOfFile)) with true.
  - cbn [bind app]. rewrite (Z.add_comm 1). reflexivity.
  - symmetry. apply andb_true_iff. split; apply negb_true_iff, Z.eqb_neq; intros Heq.
    + apply Hd. rewrite <- (byte_of_Z_of_byte (Type_ bad)), Heq. reflexivity.
    + apply He. rewrite <- (byte_of_Z_of_byte (Type_ bad)), Heq. reflexivity.
Qed.

Lemma NewI8HEX_reports_the_line_of_an_illegal_kind_witness :
  I8HEXFileDraft.NewI8HEX
    (List.concat (map recordLine [mkRecord RecordData 0 [x01]])
     ++ recordLine (mkRecord RecordExtLinear 0 [x00; x01]) ++ [])
  = Err (I8HEXFileDraft.InvalidRecordTypeOnLine
           (len [mkRecord RecordData 0 [x01]] + 1) RecordExtLinear).
Proof.
  apply (NewI8HEX_reports_the_line_of_an_illegal_kind
           [mkRecord RecordData 0 [x01]] (mkRecord RecordExtLinear 0 [x00; x01]) []).
  - repeat (constructor;
          [unfold readableByI8HEX; split;
           [first [left; reflexivity | right; reflexivity]
           |split; [vm_compute; reflexivity
                   |vm_compute; split; first [discriminate | reflexivity]]]|]);
    constructor.
  - reflexivity.
  - discriminate.
  - discriminate.
  - vm_compute. reflexivity.
  - cbn [AddressOffset]. lia.
Defined.

(** ** The two decoders *)

Lemma generateChecksum_same (data : list byte) (t : byte) :
  HexFile.generateChecksum data t = Decoder.generateChecksum data t.
Proof.
  unfold HexFile.generateChecksum, Decoder.generateChecksum. destruct t; reflexivity.
Qed.

Lemma read_of_readRecord (reader rest : list byte) (r : Record_) :
  Decoder.readRecord reader = Ok (r, rest) ->
  exists bytes : list byte,
    bufio_ReadLine reader = Some (bytes, rest) /\ HexFile.read bytes = Ok r.
Proof.
  unfold Decoder.readRecord.
  destruct (bufio_ReadLine reader) as [[bytes rest']|]; [|discriminate].
  intros H. exists bytes.
  enough (Hboth : rest' = rest /\ HexFile.read bytes = Ok r)
    by (destruct Hboth as [-> Hr]; split; [reflexivity | exact Hr]).
  revert H. unfold HexFile.read.
  change HexFile.maxRecordLen with Decoder.maxRecordLen.
  change HexFile.recordStartCode with Decoder.recordStartCode.
  cbv zeta. destruct (len bytes >? Decoder.maxRecordLen); [discriminate|].
  destruct (index bytes 0) as [b0|]; cbn [checked bind]; [|discriminate].
  destruct (negb (Byte.eqb b0 Decoder.recordStartCode)); [discriminate|].
  destruct (slice bytes 1 3) as [s13|]; cbn [checked bind]; [|discriminate].
  destruct (strconv_ParseInt s13 8) as [byteCount [e|]];
    cbn [Decoder.parsed HexFile.parsed bind]; [discriminate|].
  destruct (byteCount >? 255); [discriminate|].
  destruct (negb (byteCount =? Z.quot (len bytes - 11) 2)); [discriminate|].
  destruct (make byteCount) as [data0|]; cbn [checked bind]; [|discriminate].
  destruct (slice bytes 3 7) as [s37|]; cbn [checked bind]; [|discriminate].
  destruct (strconv_ParseUint s37 16) as [address [e|]];
    cbn [Decoder.parsed HexFile.parsed bind]; [discriminate|].
  destruct (slice bytes 7 9) as [s79|]; cbn [checked bind]; [|discriminate].
  destruct (strconv_ParseUint s79 8) as [recordType [e|]];
    cbn [Decoder.parsed HexFile.parsed bind]; [discriminate|].
  destruct (negb (Decoder.knownRecordType recordType)); [discriminate|].
  destruct (slice bytes 9 (len bytes - 2)) as [sData|]; cbn [checked bind];
    [|discriminate].
  destruct (hex_Decode data0 sData) as [[[data decodedBytes] [e|]]|];
    cbn [checked bind]; try discriminate.
  destruct (negb (decodedBytes =? len data)); [discriminate|].
  destruct (slice bytes (len bytes - 2) (len bytes)) as [sSum|]; cbn [checked bind];
    [|discriminate].
  destruct (strconv_ParseUint sSum 8) as [recordChecksum [e|]];
    cbn [Decoder.parsed HexFile.parsed bind]; [discriminate|].
  rewrite generateChecksum_same.
  destruct (negb _); [discriminate|].
  intros H. injection H as <- <-. split; reflexivity.
Qed.

(** X24: the decoder of the [HexFile] draft accepts what [readRecord]
    accepts.  Whenever [readRecord] returns a record for the next line of
    the input, [Record.read] of the [HexFile] draft returns the same
    record for that line. *)
Theorem read_agrees_with_readRecord (reader rest : list byte) (r : Record_) :
  Decoder.readRecord reader = Ok (r, rest) ->
  exists bytes : list byte,
    bufio_ReadLine reader = Some (bytes, rest) /\ HexFile.read bytes = Ok r.
Proof.
  exact (read_of_readRecord reader rest r).
Qed.

Lemma read_agrees_with_readRecord_witness :
  exists bytes : list byte,
    bufio_ReadLine (list_byte_of_string ":01001000AA56" ++ ["010"%byte])
    = Some (bytes, [])
    /\ HexFile.read bytes = Ok (mkRecord RecordData 16 [xaa]).
Proof.
  apply (read_agrees_with_readRecord
           (list_byte_of_string ":01001000AA56" ++ ["010"%byte]) []
           (mkRecord RecordData 16 [xaa])).
  vm_compute. reflexivity.
Defined.

(** ** [ReadFrom] on encoded records *)

Lemma recordLine_lineBody (r : Record_) : recordLine r = lineBody r ++ ["010"%byte].
Proof.
  unfold recordLine, lineBody. cbn [app]. rewrite <- !app_assoc. reflexivity.
Qed.

Lemma lineBody_plain (r : Record_) :
  len (Data r) <= 255 -> 0 <= AddressOffset r < 65536 ->
  Forall isLineByte (lineBody r).
Proof.
  intros Hlen Haddr. pose proof (len_nonneg (Data r)).
  pose proof (Z_of_byte_range (Type_ r)). pose proof (Z_of_byte_range (getChecksum r)).
  unfold lineBody. constructor; [split; reflexivity|].
  apply Forall_app; split; [apply fmt_X_2_line; lia|].
  apply Forall_app; split; [apply fmt_X_4_line; lia|].
  apply Forall_app; split; [apply fmt_X_2_line; lia|].
  apply Forall_app; split; [apply hex_Encode_line | apply fmt_X_2_line; lia].
Qed.

Lemma validateHEXRecord_known (r : Record_) (hexType : byte) :
  HexFile.validateHEXRecord (Some r) hexType = true ->
  Decoder.knownRecordType (Z_of_byte (Type_ r)) = true.
Proof.
  unfold HexFile.validateHEXRecord.
  destruct (Byte.eqb hexType HexFile.HexFileTypeI8HEX);
    [destruct (Type_ r); first [reflexivity | discriminate]|].
  destruct (Byte.eqb hexType HexFile.HexFileTypeI16HEX);
    [destruct (Type_ r); first [reflexivity | discriminate]|].
  destruct (Byte.eqb hexType HexFile.HexFileTypeI32HEX);
    [destruct (Type_ r); first [reflexivity | discriminate] | discriminate].
Qed.

Lemma read_lineBody (hexType : byte) (r : Record_) :
  readableByReadFrom hexType r -> HexFile.read (lineBody r) = Ok r.
Proof.
  intros (Hvalid & Hlen & Haddr).
  assert (Hrt : Decoder.readRecord (recordLine r ++ []) = Ok (r, [])).
  { change (recordLine r) with (recordLineWith r (Z_of_byte (getChecksum r))).
    rewrite readRecord_recordLineWith; try lia.
    - replace (len (Data r) >=? 128) with false
        by (symmetry; rewrite Z.geb_leb; apply Z.leb_gt; lia).
      rewrite Z.eqb_refl. reflexivity.
    - exact (validateHEXRecord_known _ _ Hvalid).
    - apply Z_of_byte_range. }
  destruct (read_of_readRecord _ _ _ Hrt) as (bytes & HRL & Hread).
  rewrite app_nil_r, recordLine_lineBody in HRL. unfold lineBody in HRL at 1.
  rewrite ReadLine_line_then in HRL by (apply lineBody_plain; lia).
  injection HRL as <-. exact Hread.
Qed.

Lemma ScanLines_lines (bodies : list (list byte)) :
  forall fuel : nat,
    Forall (Forall isLineByte) bodies ->
    (List.length (List.concat (map (fun b => b ++ ["010"%byte]) bodies)) < fuel)%nat ->
    bufio_ScanLines fuel (List.concat (map (fun b => b ++ ["010"%byte]) bodies))
    = bodies.
Proof.
  induction bodies as [|b bodies IH]; intros fuel Hall Hfuel.
  - destruct fuel; reflexivity.
  - inversion Hall as [|b' bs Hb Hbs]; subst.
    cbn [map List.concat] in *. rewrite <- app_assoc in *. cbn [app] in *.
    destruct fuel as [|fuel]; [lia|].
    assert (Hstep : bufio_ScanLines (S fuel)
                      (b ++ "010"%byte
                         :: List.concat (map (fun b => b ++ ["010"%byte]) bodies))
                    = dropCR b
                      :: bufio_ScanLines fuel
                           (List.concat (map (fun b => b ++ ["010"%byte]) bodies))).
    { cbn [bufio_ScanLines]. rewrite splitLF_line by exact Hb.
      destruct b; reflexivity. }
    rewrite Hstep, dropCR_line by exact Hb. f_equal. apply IH; [exact Hbs|].
    rewrite List.length_app in Hfuel. cbn [List.length] in Hfuel. lia.
Qed.

Lemma readLoop_reads (hexType : byte) (rs : list Record_) :
  forall (records : list Record_) (lineNumber : Z),
    HexFile.lastIsEOF records = false ->
    Forall (fun r => readableByReadFrom hexType r /\ Type_ r <> RecordEOF) rs ->
    HexFile.readLoop hexType (map lineBody rs) records lineNumber = Ok (records ++ rs)
    /\ HexFile.lastIsEOF (records ++ rs) = false.
Proof.
  induction rs as [|r rs IH]; intros records n Hlast Hall.
  - cbn [map HexFile.readLoop]. rewrite app_nil_r. auto.
  - inversion Hall as [|r' rs' (Hr & Hne) Hrs]; subst. cbn [map].
    rewrite (readLoop_step _ _ _ _ _ _ (read_lineBody hexType r Hr)), Hlast.
    destruct Hr as (Hvalid & _). rewrite Hvalid. cbn [negb].
    destruct (IH (records ++ [r]) (n + 1)) as (Hloop & Hlast'); [|exact Hrs|].
    + rewrite lastIsEOF_snoc. destruct (Byte.eqb _ _) eqn:E; [|reflexivity].
      apply Byte.byte_dec_bl in E. contradiction.
    + rewrite <- app_assoc in Hloop, Hlast'. cbn [app] in Hloop, Hlast'. auto.
Qed.

(** X25: [ReadFrom] reads back a well-terminated file.  For records legal
    for the file type, none an EndOfFile record, each with fewer than 128
    payload bytes and a 16-bit address, followed by one EndOfFile record,
    [ReadFrom] on their encoded lines returns the file holding exactly
    these records in order, with the cursor reset. *)
Theorem ReadFrom_reads_back_a_terminated_file
    (me : HexFile.HexFile) (rs : list Record_) (eof : Record_) :
  Forall (fun r => readableByReadFrom (HexFile.Type_ me) r /\ Type_ r <> RecordEOF) rs ->
  readableByReadFrom (HexFile.Type_ me) eof ->
  Type_ eof = RecordEOF ->
  HexFile.ReadFrom me (List.concat (map recordLine (rs ++ [eof])))
  = Ok (HexFile.mkHexFile (HexFile.Type_ me) (rs ++ [eof]) (-1)).
Proof.
  intros Hrs Heof Hkind. unfold HexFile.ReadFrom.
  set (input := List.concat (map recordLine (rs ++ [eof]))).
  assert (Hinput : input
                   = List.concat (map (fun b => b ++ ["010"%byte])
                                    (map lineBody (rs ++ [eof])))).
  { unfold input. rewrite map_map. f_equal. apply map_ext. intros r.
    apply recordLine_lineBody. }
  assert (Htokens : bufio_ScanLines (S (List.length input)) input
                    = map lineBody (rs ++ [eof])).
  { rewrite Hinput at 2. rewrite Hinput at 1.
    apply ScanLines_lines; [|lia].
    apply Forall_map. apply Forall_app. split.
    - eapply Forall_impl; [|exact Hrs]. intros r ((_ & Hl & Ha) & _).
      apply lineBody_plain; lia.
    - constructor; [|constructor]. destruct Heof as (_ & Hl & Ha).
      apply lineBody_plain; lia. }
  rewrite Htokens, map_app. cbn [map].
  destruct (readLoop_reads (HexFile.Type_ me) rs [] 1 eq_refl Hrs) as (Hloop & Hlast).
  cbn [app] in Hloop, Hlast.
  rewrite (readLoop_app _ _ _ _ _ _ Hloop).
  rewrite (readLoop_step _ _ _ _ _ _ (read_lineBody _ eof Heof)), Hlast.
  destruct Heof as (Hvalid & _). rewrite Hvalid. cbn [negb HexFile.readLoop bind].
  rewrite lastIsEOF_snoc, Hkind. change (Byte.eqb RecordEOF HexFile.RecordTypeEndOfFile)
    with true. cbn [negb]. rewrite orb_false_r.
  replace (len (rs ++ [eof]) =? 0) with false.
  - reflexivity.
  - symmetry. apply Z.eqb_neq. rewrite len_app. change (len [eof]) with 1.
    pose proof (len_nonneg rs). lia.
Qed.

Lemma ReadFrom_reads_back_a_terminated_file_witness :
  HexFile.ReadFrom I8HEXHexFile
    (List.concat (map recordLine ([mkRecord RecordData 16 [xaa]] ++ [mkRecord RecordEOF 0 []])))
  = Ok (HexFile.mkHexFile (HexFile.Type_ I8HEXHexFile)
          ([mkRecord RecordData 16 [xaa]] ++ [mkRecord RecordEOF 0 []]) (-1)).
Proof.
  apply (ReadFrom_reads_back_a_terminated_file I8HEXHexFile
           [mkRecord RecordData 16 [xaa]] (mkRecord RecordEOF 0 [])).
  - constructor; [|constructor]. unfold readableByReadFrom.
    repeat split; vm_compute; first [reflexivity | discriminate].
  - unfold readableByReadFrom. repeat split; vm_compute; first [reflexivity | discriminate].
  - reflexivity.
Defined.

(** ** The writer's output read back *)

Lemma dataRecordsFrom_Data (chunks : list (list byte)) :
  forall recordCount : Z, map Data (dataRecordsFrom recordCount chunks) = chunks.
Proof.
  induction chunks as [|c chunks IH]; intros rc; cbn [dataRecordsFrom map].
  - reflexivity.
  - rewrite IH. reflexivity.
Qed.

Lemma dataRecordsFrom_readable (k : Z) (chunks : list (list byte)) :
  k < 128 -> Forall (fun c => len c = k) chunks ->
  forall recordCount : Z,
    Forall (fun r => readableByI8HEX r /\ Type_ r = RecordData /\ len (Data r) = k)
      (dataRecordsFrom recordCount chunks).
Proof.
  intros Hk Hall. induction Hall as [|c chunks Hc Hall IH]; intros rc;
    cbn [dataRecordsFrom]; constructor.
  - unfold readableByI8HEX. rewrite dataRecordAt_address.
    pose proof (Z.mod_pos_bound rc 256 ltac:(lia)).
    cbn [dataRecordAt Type_ Data]. repeat split; auto; lia.
  - apply IH.
Qed.

(** X26: what [Write] has sent to the sink is read back by [NewI8HEX].
    On a well-formed open writer with nothing pending and an empty sink,
    whose record size is below 128 and whose file type is not I16HEX,
    with room below the record limit, [Write] succeeds and [NewI8HEX] on
    the bytes in the sink returns Data records of [recordSize] bytes each
    whose payloads, in order, are the input without its last fewer than
    [recordSize] bytes, which stay pending in the writer. *)
Theorem NewI8HEX_reads_back_what_Write_sent (me : FileWriter) (p : list byte) :
  wellFormedWriter me ->
  closed me = false ->
  fileType me <> I16HEX ->
  recordCount me + len p <= plainLimit (fileType me) ->
  recordSize me < 128 ->
  bufferIndex me = 0 ->
  written (writer me) = [] ->
  exists (me' : FileWriter) (n : Z) (records : list Record_) (rest : list byte),
    Write me p = Some (me', n, None)
    /\ I8HEXFileDraft.NewI8HEX (List.concat (written (writer me')))
       = Ok (I8HEXFileDraft.mkI8HEX records 0 0)
    /\ Forall (fun r => Type_ r = RecordData /\ len (Data r) = recordSize me) records
    /\ p = List.concat (map Data records) ++ rest
    /\ len rest < recordSize me
    /\ firstn (Z.to_nat (bufferIndex me')) (buffer me') = rest.
Proof.
  destruct me as [k rc buf idx ft w cl]. unfold wellFormedWriter.
  cbn [recordSize recordCount buffer bufferIndex fileType writer closed].
  intros (Hbuf & Hidx & Hrc) Hcl Hft Hlim Hk Hidx0 Hw. subst cl idx.
  destruct (writeLoop_chunks p k rc buf 0 ft w false 0 Hbuf Hidx Hrc Hft Hlim)
    as (chunks & rest & buf' & Heq & Hcat & Hall & Hrest & Hb' & Hfirst & _).
  pose proof (dataRecordsFrom_readable k chunks Hk Hall rc) as Hread.
  eexists _, _, (dataRecordsFrom rc chunks), rest. unfold Write. cbn [closed].
  rewrite Heq. split; [reflexivity|].
  cbn [recordSize recordCount buffer bufferIndex fileType writer closed written].
  rewrite Hw. cbn [app]. split; [|split; [|split; [|split]]].
  - unfold I8HEXFileDraft.NewI8HEX.
    set (input := List.concat (map recordLine (dataRecordsFrom rc chunks))).
    replace input with (input ++ []) at 2 by apply app_nil_r. unfold input.
    rewrite newLoop_lines.
    + cbn [I8HEXFileDraft.newLoop]. reflexivity.
    + rewrite app_nil_r. lia.
    + eapply Forall_impl; [|exact Hread]. intros r (H & _). exact H.
  - eapply Forall_impl; [|exact Hread]. intros r (_ & H). exact H.
  - rewrite dataRecordsFrom_Data. exact Hcat.
  - exact Hrest.
  - exact Hfirst.
Qed.

Lemma NewI8HEX_reads_back_what_Write_sent_witness :
  let me := mkFileWriter 2 0 [x00; x00] 0 I32HEX memorySink false in
  exists (me' : FileWriter) (n : Z) (records : list Record_) (rest : list byte),
    Write me [x01; x02; x03] = Some (me', n, None)
    /\ I8HEXFileDraft.NewI8HEX (List.concat (written (writer me')))
       = Ok (I8HEXFileDraft.mkI8HEX records 0 0)
    /\ Forall (fun r => Type_ r = RecordData /\ len (Data r) = recordSize me) records
    /\ [x01; x02; x03] = List.concat (map Data records) ++ rest
    /\ len rest < recordSize me
    /\ firstn (Z.to_nat (bufferIndex me')) (buffer me') = rest.
Proof.
  intros me.
  apply (NewI8HEX_reads_back_what_Write_sent me [x01; x02; x03]).
  - unfold wellFormedWriter. vm_compute. repeat split; discriminate.
  - reflexivity.
  - discriminate.
  - vm_compute. discriminate.
  - reflexivity.
  - reflexivity.
  - reflexivity.
Defined.
